(** * Risk engine of the live position sizer (Live.py)

    A shallow embedding of the pure sizing functions of the risk manager:
    [liquidation_price], [margin_per_unit], [max_units_affordable],
    [per_unit_risk], [safe_units_by_risk] and [recommend_units]; and of
    the live feed around them: [LiveData.fetch_price], [fetch_fx_rate]
    and one pass of the loop of [main], over the values the exchange and
    the rate service deliver.

    Python's [float] is IEEE 754 binary64, and so is Rocq's primitive
    [float]: every arithmetic operation and comparison below is the one the
    interpreter performs, rounding, signed zeros, infinities and NaN
    included.  Exceptions are values of [result]. *)

From Stdlib Require Import ZArith QArith Qpower Lia Lqa Bool List String Floats.
Import ListNotations.

Set Warnings "-inexact-float,-register-all".

Local Open Scope float_scope.

(** ** Exceptions *)

Inductive exn : Type :=
| ValueError (msg : string)
| ZeroDivisionError
| OverflowError (msg : string).

Inductive result (A : Type) : Type :=
| Ok (a : A)
| Raise (e : exn).

Arguments Ok {A} a.
Arguments Raise {A} e.

Definition bind {A B : Type} (r : result A) (k : A -> result B) : result B :=
  match r with
  | Ok a => k a
  | Raise e => Raise e
  end.

Notation "x <- r ;; k" := (bind r (fun x => k))
  (at level 61, r at next level, right associativity).

Definition raises {A : Type} (r : result A) : Prop :=
  exists e, r = Raise e.

Definition returns {A : Type} (r : result A) : Prop :=
  exists a, r = Ok a.

(** ** Python's float operations *)

Module Py.

(** [x / y] on floats: a zero divisor (of either sign) raises. *)
Definition truediv (x y : float) : result float :=
  if y =? 0 then Raise ZeroDivisionError else Ok (x / y).

(** [max(a, b)]: the first argument is kept unless the second is
    strictly greater. *)
Definition max2 (a b : float) : float :=
  if a <? b then b else a.

(** The scan of [min(iterable)] after its first element. *)
Fixpoint min_from (cur : float) (rest : list float) : float :=
  match rest with
  | [] => cur
  | x :: rest' => min_from (if x <? cur then x else cur) rest'
  end.

(** [min(l)]: the first minimal element; an empty list raises. *)
Definition min (l : list float) : result float :=
  match l with
  | [] => Raise (ValueError "min() arg is an empty sequence")
  | x :: rest => Ok (min_from x rest)
  end.

End Py.

(** ** Data model *)

(** [Side = Literal["long", "short"]] *)
Inductive Side : Type := Long | Short.

Definition Side_eqb (a b : Side) : bool :=
  match a, b with
  | Long, Long | Short, Short => true
  | _, _ => false
  end.

(** The dataclass [RiskInput]. *)
Record RiskInput : Type := mkRiskInput {
  equity_usd : float;
  entry : float;
  leverage : float;
  side : Side;
  stop_loss : option float;
  risk_percent : float
}.

(** The dictionary [recommend_units] returns; field [res_k] is key ["k"]. *)
Record Assessment : Type := mkAssessment {
  res_entry : float;
  res_live_price : float;
  res_side : Side;
  res_leverage : float;
  res_equity_usd : float;
  res_stop_loss : option float;
  res_risk_percent : float;
  res_liquidation_price : float;
  res_margin_per_unit : float;
  res_max_units_by_margin : float;
  res_per_unit_risk : float;
  res_units_by_risk : float;
  res_recommended_units : float;
  res_recommended_margin_capital : float
}.

(** ** The sizing functions *)

Definition liquidation_price (entry leverage : float) (side : Side)
  : result float :=
  if leverage <=? 0 then Raise (ValueError "leverage must be positive")
  else if Side_eqb side Long then
    q <- Py.truediv 1 leverage ;;
    Ok (entry * (1 - q))
  else
    q <- Py.truediv 1 leverage ;;
    Ok (entry * (1 + q)).

Definition margin_per_unit (entry leverage : float) : result float :=
  if leverage <=? 0 then Raise (ValueError "leverage must be positive")
  else Py.truediv entry leverage.

Definition max_units_affordable (equity_usd entry leverage : float)
  : result float :=
  mpu <- margin_per_unit entry leverage ;;
  if mpu <=? 0 then Ok 0
  else Py.truediv equity_usd mpu.

Definition per_unit_risk (entry : float) (stop_loss : option float)
  (side : Side) : float :=
  match stop_loss with
  | None => 0
  | Some stop =>
      if Side_eqb side Long then Py.max2 0 (entry - stop)
      else Py.max2 0 (stop - entry)
  end.

Definition safe_units_by_risk (equity_usd risk_percent pu_risk : float)
  : result float :=
  let risk_dollar := equity_usd * Py.max2 0 risk_percent in
  if pu_risk <=? 0 then Ok 0
  else Py.truediv risk_dollar pu_risk.

(** The sanity check of [recommend_units]: the live price is at or beyond
    the liquidation boundary of the side. *)
Definition beyond_liquidation (side : Side) (live_price liq : float) : bool :=
  (Side_eqb side Long && (live_price <=? liq))
  || (Side_eqb side Short && (liq <=? live_price)).

Definition recommend_units (inp : RiskInput) (live_price : float)
  : result Assessment :=
  liq <- liquidation_price inp.(entry) inp.(leverage) inp.(side) ;;
  mpu <- margin_per_unit inp.(entry) inp.(leverage) ;;
  max_by_margin <-
    max_units_affordable inp.(equity_usd) inp.(entry) inp.(leverage) ;;
  let pu_risk := per_unit_risk inp.(entry) inp.(stop_loss) inp.(side) in
  units_by_risk <-
    safe_units_by_risk inp.(equity_usd) inp.(risk_percent) pu_risk ;;
  let candidates :=
    [max_by_margin]
      ++ (if 0 <? units_by_risk then [units_by_risk] else []) in
  rec_units <-
    match candidates with
    | [] => Ok 0
    | _ :: _ => Py.min candidates
    end ;;
  let rec_units :=
    if beyond_liquidation inp.(side) live_price liq then 0 else rec_units in
  let capital_margin := rec_units * mpu in
  Ok {| res_entry := inp.(entry);
        res_live_price := live_price;
        res_side := inp.(side);
        res_leverage := inp.(leverage);
        res_equity_usd := inp.(equity_usd);
        res_stop_loss := inp.(stop_loss);
        res_risk_percent := inp.(risk_percent);
        res_liquidation_price := liq;
        res_margin_per_unit := mpu;
        res_max_units_by_margin := max_by_margin;
        res_per_unit_risk := pu_risk;
        res_units_by_risk := units_by_risk;
        res_recommended_units := rec_units;
        res_recommended_margin_capital := capital_margin |}.

(** The request of the worked example: 10000 of equity, entry at 50000,
    leverage 10, long, stop at 49000, 2% of equity at risk. *)
Definition scenario_B : RiskInput :=
  {| equity_usd := 10000; entry := 50000; leverage := 10; side := Long;
     stop_loss := Some 49000; risk_percent := 0.02 |}.

(** The same request without a stop. *)
Definition scenario_D : RiskInput :=
  {| equity_usd := 10000; entry := 50000; leverage := 10; side := Long;
     stop_loss := None; risk_percent := 0.02 |}.

(** The request of the worked example with a negative equity. *)
Definition negative_equity : RiskInput :=
  {| equity_usd := -10000; entry := 50000; leverage := 10; side := Long;
     stop_loss := Some 49000; risk_percent := 0.02 |}.

(** The request of the worked example with the stop of a long position
    above its entry. *)
Definition misplaced_stop : RiskInput :=
  {| equity_usd := 10000; entry := 50000; leverage := 10; side := Long;
     stop_loss := Some 51000; risk_percent := 0.02 |}.

(** A request whose entry is [-inf] at a leverage of [+inf]. *)
Definition infinite_entry : RiskInput :=
  {| equity_usd := 10000; entry := neg_infinity; leverage := infinity;
     side := Long; stop_loss := None; risk_percent := 0.02 |}.

(** The exception of a non-positive leverage. *)
Definition invalid_leverage : exn := ValueError "leverage must be positive".

(** ** The live feed and the refresh loop *)

(** A Python dictionary with string keys, read through [d.get(k)]. *)
Definition dict (V : Type) : Type := list (string * V).

Fixpoint dict_get {V : Type} (d : dict V) (k : string) : option V :=
  match d with
  | [] => None
  | (k', v) :: d' => if String.eqb k k' then Some v else dict_get d' k
  end.

(** The truth value of a float: zeros are false, NaN is true. *)
Definition truthy (x : float) : bool := negb (x =? 0).

(** A value as [json] parses it and as a ccxt ticker holds it: [None], a
    bool, an int, a float, a str, a list, or a dict with string keys.
    Python checks no type on the way: the feed receives whatever the
    exchange or the rate service sent. *)
Inductive pyval : Type :=
| PNone
| PBool (b : bool)
| PInt (z : Z)
| PFloat (x : float)
| PStr (s : string)
| PList (l : list pyval)
| PDict (d : list (string * pyval)).

(** The built-ins the feed and the loop call and whose code is not in
    the repository: [str.upper]; the conversion of a str to a float
    ([None] when [float] raises [ValueError]); the conversion of an int
    to a float, by [float] and for an int operand of mixed arithmetic
    ([None] when it raises [OverflowError]); and [time.sleep], which
    raises for an argument it does not accept (negative, NaN, or too
    large). *)
Record Builtins : Type := mkBuiltins {
  str_upper : string -> string;
  float_of_str : string -> option float;
  float_of_int : Z -> option float;
  time_sleep : float -> result unit
}.

(** [bool(v)], the test of [if v:]. *)
Definition py_bool (v : pyval) : bool :=
  match v with
  | PNone => false
  | PBool b => b
  | PInt z => negb (z =? 0)%Z
  | PFloat x => truthy x
  | PStr s => negb (String.eqb s EmptyString)
  | PList l => match l with [] => false | _ :: _ => true end
  | PDict d => match d with [] => false | _ :: _ => true end
  end.

(** [float(v)].  [None] stands for the exception it raises: [TypeError]
    for [None], a list or a dict, [ValueError] for a str that is not a
    number, [OverflowError] for an int that is too large.  Both callers
    swallow the exception without looking at it. *)
Definition py_float (py : Builtins) (v : pyval) : option float :=
  match v with
  | PNone => None
  | PBool b => Some (if b then 1 else 0)
  | PInt z => float_of_int py z
  | PFloat x => Some x
  | PStr s => float_of_str py s
  | PList _ => None
  | PDict _ => None
  end.

(** [v.get(k, default)].  Only a dict has the method: [None] stands for
    the [AttributeError] of any other value. *)
Definition py_get (v : pyval) (k : string) (default : pyval)
  : option pyval :=
  match v with
  | PDict d =>
      Some (match dict_get d k with Some x => x | None => default end)
  | _ => None
  end.

(** The number a value is in arithmetic: a bool counts as the int 0 or 1;
    [None] for a value that is no number. *)
Definition py_number (v : pyval) : option (Z + float) :=
  match v with
  | PBool b => Some (inl (Z.b2z b))
  | PInt z => Some (inl z)
  | PFloat x => Some (inr x)
  | _ => None
  end.

(** [(bid + ask) / 2.0].  Two ints are added exactly and the sum is
    converted for the division; an int next to a float is converted
    before the addition.  [None] stands for the exception: [TypeError]
    when an operand is no number (two strs or two lists are concatenated
    and the division then fails), [OverflowError] from a conversion. *)
Definition mid (py : Builtins) (bid ask : pyval) : option float :=
  match py_number bid, py_number ask with
  | Some (inl a), Some (inl b) =>
      match float_of_int py (a + b) with
      | Some s => Some (s / 2)
      | None => None
      end
  | Some (inl a), Some (inr y) =>
      match float_of_int py a with
      | Some x => Some ((x + y) / 2)
      | None => None
      end
  | Some (inr x), Some (inl b) =>
      match float_of_int py b with
      | Some y => Some ((x + y) / 2)
      | None => None
      end
  | Some (inr x), Some (inr y) => Some ((x + y) / 2)
  | _, _ => None
  end.

(** [LiveData.fetch_price], given the outcome of
    [self.exchange.fetch_ticker(self.symbol)]: [float(last)] when the
    ticker has a last price that is not [None], else the middle of bid
    and ask when both are true, else [None].  Every exception inside the
    [try] is swallowed and gives [None]: that of the exchange, the
    [AttributeError] of a ticker without [get], that of [float(last)] and
    that of the arithmetic on bid and ask. *)
Definition fetch_price (py : Builtins) (fetch_ticker : result pyval)
  : option float :=
  match fetch_ticker with
  | Raise _ => None
  | Ok ticker =>
      match py_get ticker "last" PNone with
      | None => None
      | Some PNone =>
          match py_get ticker "bid" PNone, py_get ticker "ask" PNone with
          | Some bid, Some ask =>
              if py_bool bid && py_bool ask then mid py bid ask else None
          | _, _ => None
          end
      | Some last => py_float py last
      end
  end.

(** [fetch_fx_rate], given the outcome of the request ([r.json()], or the
    exception of [requests.get], [raise_for_status] or [json]); the
    request is only made when the two codes differ.  The rate is looked
    up with [data.get("rates", {}).get(quote.upper())], tested with
    [if rate:] and converted with [float(rate)]; every exception inside
    the [try] is swallowed and the fallback [1.0] returned. *)
Definition fetch_fx_rate (py : Builtins) (base quote : string)
  (response : result pyval) : float :=
  if String.eqb (str_upper py base) (str_upper py quote) then 1
  else
    match response with
    | Raise _ => 1
    | Ok data =>
        match py_get data "rates" (PDict []) with
        | None => 1
        | Some rates =>
            match py_get rates (str_upper py quote) PNone with
            | None => 1
            | Some rate =>
                if py_bool rate
                then match py_float py rate with
                     | Some x => x
                     | None => 1
                     end
                else 1
            end
        end
    end.

(** The command-line arguments the loop body of [main] reads. *)
Record Args : Type := mkArgs {
  arg_equity : float;
  arg_leverage : float;
  arg_entry : float;
  arg_side : Side;
  arg_stop : option float;
  arg_risk : float;
  arg_interval : float;
  arg_display_currency : string;
  arg_quote_currency : string
}.

(** What a pass of the loop of [main] prints: the warning that there is
    no price, an assessment with the three amounts converted to the
    display currency, the exception its handler caught. *)
Inductive Output : Type :=
| NoPrice
| Shown (res : Assessment)
        (eq_disp margin_unit_disp rec_margin_disp : float)
| Errored (e : exn).

(** How a pass ends: the loop goes on with the next pass, or an
    exception leaves [main]. *)
Inductive Ending : Type :=
| NextPass
| Uncaught (e : exn).

(** The body of the [try] of one pass: what it prints, and whether it
    ends normally or by an exception.  Both ways out of the body sleep
    inside the [try]. *)
Definition try_body (py : Builtins) (args : Args)
  (fetch_ticker response : result pyval) : list Output * result unit :=
  let live := fetch_price py fetch_ticker in
  let fx :=
    fetch_fx_rate py args.(arg_quote_currency)
      args.(arg_display_currency) response in
  match live with
  | None => ([NoPrice], time_sleep py args.(arg_interval))
  | Some live =>
      let inp :=
        {| equity_usd := args.(arg_equity);
           entry := args.(arg_entry);
           leverage := args.(arg_leverage);
           side := args.(arg_side);
           stop_loss := args.(arg_stop);
           risk_percent := args.(arg_risk) |} in
      match recommend_units inp live with
      | Raise e => ([], Raise e)
      | Ok res =>
          ([Shown res
              (args.(arg_equity) * fx)
              (res.(res_margin_per_unit) * fx)
              (res.(res_recommended_margin_capital) * fx)],
           time_sleep py args.(arg_interval))
      end
  end.

(** One pass of the loop of [main].  The handler [except Exception]
    prints the exception of the body and sleeps in its turn, outside the
    [try]: an exception of that sleep leaves [main].  Standard output is
    taken to accept every line, and the interrupt from the keyboard, which
    can arrive at any point, is left out. *)
Definition cycle (py : Builtins) (args : Args)
  (fetch_ticker response : result pyval) : list Output * Ending :=
  let (out, r) := try_body py args fetch_ticker response in
  match r with
  | Ok _ => (out, NextPass)
  | Raise e =>
      (out ++ [Errored e],
       match time_sleep py args.(arg_interval) with
       | Ok _ => NextPass
       | Raise e' => Uncaught e'
       end)
  end.

(** ** Auxiliary notions for the arithmetic of binary64 *)

(** The rational [m * 2^e]. *)
Definition F2Q (m e : Z) : Q := (inject_Z m * 2 ^ e)%Q.

(** [x] is a zero, a finite number or an infinity with sign bit [s]
    (and not NaN). *)
Definition SFsigned (s : bool) (x : spec_float) : Prop :=
  match x with
  | S754_zero s' | S754_infinity s' | S754_finite s' _ _ => s' = s
  | S754_nan => False
  end.

(** The exponent function of binary64. *)
Abbreviation fexp64 := (fexp prec emax).

(** * Facts about binary64

    The comparisons and the rounding of the arithmetic operations, from
    their specification in [SpecFloat]. *)

(** ** Comparisons *)

Section Comparisons.

(** Swapping the arguments of a comparison swaps its outcome; a NaN on
    either side compares with nothing. *)
Lemma SFcompare_antisym (x y : spec_float) :
  SFcompare y x = option_map CompOpp (SFcompare x y).
Proof.
  destruct x as [sx|sx| |sx mx ex], y as [sy|sy| |sy my ey]; simpl;
    try reflexivity;
    try (destruct sx; reflexivity); try (destruct sy; reflexivity);
    try (destruct sx, sy; reflexivity).
  destruct sx, sy; simpl; try reflexivity;
    rewrite (Z.compare_antisym ex ey);
    destruct (ex ?= ey)%Z; simpl; try reflexivity;
    change (Pos.compare_cont Eq my mx) with (Pos.compare my mx);
    change (Pos.compare_cont Eq mx my) with (Pos.compare mx my);
    rewrite (Pos.compare_antisym mx my); try rewrite CompOpp_involutive;
    reflexivity.
Qed.

(** [x < y] gives [x <= y]. *)
Lemma ltb_leb (x y : float) : (x <? y) = true -> (x <=? y) = true.
Proof.
  rewrite ltb_spec, leb_spec. unfold SFltb, SFleb.
  destruct (SFcompare _ _) as [[]|]; congruence.
Qed.

(** [x < y] excludes [y <= x]. *)
Lemma ltb_not_geb (x y : float) : (x <? y) = true -> (y <=? x) = false.
Proof.
  rewrite ltb_spec, leb_spec. unfold SFltb, SFleb.
  rewrite (SFcompare_antisym (Prim2SF x) (Prim2SF y)).
  destruct (SFcompare _ _) as [[]|]; simpl; congruence.
Qed.

(** [x < y] excludes [y < x]. *)
Lemma ltb_asym (x y : float) : (x <? y) = true -> (y <? x) = false.
Proof.
  rewrite !ltb_spec. unfold SFltb.
  rewrite (SFcompare_antisym (Prim2SF x) (Prim2SF y)).
  destruct (SFcompare _ _) as [[]|]; simpl; congruence.
Qed.

(** [x == y] gives [x <= y]. *)
Lemma eqb_leb (x y : float) : (x =? y) = true -> (x <=? y) = true.
Proof.
  rewrite eqb_spec, leb_spec. unfold SFeqb, SFleb.
  destruct (SFcompare _ _) as [[]|]; congruence.
Qed.

(** A float that is not at or below [y] is not equal to [y]. *)
Lemma leb_false_eqb (x y : float) : (x <=? y) = false -> (x =? y) = false.
Proof.
  intros H. destruct (x =? y) eqn:E; [|reflexivity].
  apply eqb_leb in E. congruence.
Qed.

End Comparisons.

(** ** Number of binary digits *)

Section Digits.
Local Open Scope Z_scope.

(** The number of digits is the size of the binary numeral. *)
Lemma digits2_pos_size (p : positive) : digits2_pos p = Pos.size p.
Proof. induction p; simpl; congruence. Qed.

(** For [m > 0] it is one more than the binary logarithm. *)
Lemma Zdigits2_log2 (m : Z) : 0 < m -> Zdigits2 m = Z.log2 m + 1.
Proof.
  destruct m as [|p|p]; try lia. intros _. simpl.
  rewrite digits2_pos_size. destruct p; simpl; lia.
Qed.

Lemma Zdigits2_nonneg m : 0 <= Zdigits2 m.
Proof. destruct m; simpl; lia. Qed.

(** [2^(d-1) <= m < 2^d] for the number of digits [d] of [m > 0]. *)
Lemma Zdigits2_bounds (m : Z) :
  0 < m -> 2 ^ (Zdigits2 m - 1) <= m < 2 ^ Zdigits2 m.
Proof.
  intros Hm. rewrite (Zdigits2_log2 m Hm).
  replace (Z.log2 m + 1 - 1) with (Z.log2 m) by lia.
  pose proof (Z.log2_spec m Hm).
  replace (Z.log2 m + 1) with (Z.succ (Z.log2 m)) by lia. lia.
Qed.

Lemma Zdigits2_upper (m : Z) : 0 <= m -> m < 2 ^ Zdigits2 m.
Proof.
  intros Hm. destruct (Z.eq_dec m 0) as [->|]; [simpl; lia|].
  apply Zdigits2_bounds; lia.
Qed.

Lemma Zdigits2_le (a b : Z) : 0 <= a <= b -> Zdigits2 a <= Zdigits2 b.
Proof.
  intros [Ha Hab]. destruct (Z.eq_dec a 0) as [->|]; [apply Zdigits2_nonneg|].
  rewrite !Zdigits2_log2 by lia.
  pose proof (Z.log2_le_mono a b Hab). lia.
Qed.

Lemma Zdigits2_unique (m d : Z) :
  2 ^ (d - 1) <= m < 2 ^ d -> 0 < d -> Zdigits2 m = d.
Proof.
  intros H Hd. assert (0 < m) by (pose proof (Z.pow_pos_nonneg 2 (d-1)); lia).
  rewrite Zdigits2_log2 by lia.
  rewrite (Z.log2_unique m (d - 1)); try lia.
  replace (Z.succ (d - 1)) with d by lia. lia.
Qed.

Lemma Zdigits2_mul_pow2 (m k : Z) :
  0 < m -> 0 <= k -> Zdigits2 (m * 2 ^ k) = Zdigits2 m + k.
Proof.
  intros Hm Hk.
  assert (0 < 2 ^ k) by (apply Z.pow_pos_nonneg; lia).
  rewrite !Zdigits2_log2 by nia.
  rewrite Z.log2_mul_pow2 by lia. lia.
Qed.

(** Adding one adds a digit only at a power of two. *)
Lemma Zdigits2_succ (m : Z) :
  0 <= m -> Zdigits2 (m + 1) = Zdigits2 m \/
            (Zdigits2 (m + 1) = Zdigits2 m + 1 /\ m + 1 = 2 ^ Zdigits2 m).
Proof.
  intros Hm.
  destruct (Z.eq_dec m 0) as [->|Hn]; [right; split; reflexivity|].
  pose proof (Zdigits2_bounds m ltac:(lia)) as [Hlo Hhi].
  destruct (Z.eq_dec (m + 1) (2 ^ Zdigits2 m)) as [E|E].
  - right. split; [|exact E].
    apply Zdigits2_unique.
    + replace (Zdigits2 m + 1 - 1) with (Zdigits2 m) by lia.
      rewrite Z.pow_add_r by (pose proof (Zdigits2_nonneg m); lia). lia.
    + pose proof (Zdigits2_nonneg m); lia.
  - left. apply Zdigits2_unique; [lia|].
    rewrite Zdigits2_log2 by lia. pose proof (Z.log2_nonneg m). lia.
Qed.

(** Dropping [n] low bits drops [n] digits, down to none. *)
Lemma Zdigits2_div_pow2 (m n : Z) :
  0 <= m -> 0 <= n -> Zdigits2 (m / 2 ^ n) <= Z.max (Zdigits2 m - n) 0.
Proof.
  intros Hm Hn.
  assert (Hp : 0 < 2 ^ n) by (apply Z.pow_pos_nonneg; lia).
  destruct (Z.eq_dec (m / 2 ^ n) 0) as [E|E]; [rewrite E; simpl; lia|].
  assert (Hq : 0 < m / 2 ^ n).
  { pose proof (Z.div_pos m (2^n) Hm Hp). lia. }
  assert (0 < m).
  { destruct (Z.eq_dec m 0) as [->|]; [rewrite Z.div_0_l in E; lia|lia]. }
  rewrite (Zdigits2_log2 _ Hq), (Zdigits2_log2 m) by assumption.
  rewrite <- Z.shiftr_div_pow2 by lia.
  rewrite Z.log2_shiftr by lia.
  assert (2 ^ n <= m).
  { destruct (Z_lt_le_dec m (2 ^ n)) as [Hlt|]; [|assumption].
    rewrite (Z.div_small m (2 ^ n)) in Hq by lia. lia. }
  pose proof (Z.log2_le_mono (2 ^ n) m ltac:(assumption)) as Hl.
  rewrite Z.log2_pow2 in Hl by lia. lia.
Qed.

(** A product has at least one digit less than its factors together. *)
Lemma Zdigits2_mul_lower (a b : Z) :
  0 < a -> 0 < b -> Zdigits2 a + Zdigits2 b - 1 <= Zdigits2 (a * b).
Proof.
  intros Ha Hb.
  pose proof (Zdigits2_bounds a Ha) as [La _].
  pose proof (Zdigits2_bounds b Hb) as [Lb _].
  assert (0 < Zdigits2 a /\ 0 < Zdigits2 b) as [Da Db].
  { rewrite !Zdigits2_log2 by assumption.
    pose proof (Z.log2_nonneg a). pose proof (Z.log2_nonneg b). lia. }
  assert (Hp : 2 ^ (Zdigits2 a - 1 + (Zdigits2 b - 1)) <= a * b).
  { rewrite Z.pow_add_r by lia.
    assert (0 < 2 ^ (Zdigits2 a - 1)) by (apply Z.pow_pos_nonneg; lia).
    assert (0 < 2 ^ (Zdigits2 b - 1)) by (apply Z.pow_pos_nonneg; lia).
    nia. }
  apply Z.log2_le_mono in Hp. rewrite Z.log2_pow2 in Hp by lia.
  rewrite (Zdigits2_log2 (a * b)) by nia. lia.
Qed.

End Digits.

(** ** Shifts of the mantissa *)

Section Shifts.
Local Open Scope Z_scope.

(** The iterator of [shr] is plain iteration. *)
Lemma iter_pos_nat {A : Type} (f : A -> A) (p : positive) (x : A) :
  iter_pos f p x = Nat.iter (Pos.to_nat p) f x.
Proof.
  revert x. induction p as [p IH|p IH|]; intros x; cbn [iter_pos].
  - rewrite !IH, Pos2Nat.inj_xI.
    replace (S (2 * Pos.to_nat p))
      with (Pos.to_nat p + S (Pos.to_nat p))%nat by lia.
    rewrite Nat.iter_add, Nat.iter_succ_r. reflexivity.
  - rewrite !IH, Pos2Nat.inj_xO.
    replace (2 * Pos.to_nat p)%nat
      with (Pos.to_nat p + Pos.to_nat p)%nat by lia.
    rewrite Nat.iter_add. reflexivity.
  - reflexivity.
Qed.

(** One shift halves a non-negative mantissa; the round bit is the bit
    shifted out and the sticky bit remembers the earlier ones. *)
Lemma shr_1_spec (mrs : shr_record) :
  0 <= shr_m mrs ->
  shr_1 mrs = {| shr_m := shr_m mrs / 2;
                 shr_r := Z.odd (shr_m mrs);
                 shr_s := shr_r mrs || shr_s mrs |}.
Proof.
  destruct mrs as [m r s]. simpl. intros Hm.
  destruct m as [|[p|p|]|p]; try lia; simpl; f_equal.
  - rewrite Pos2Z.inj_xI. apply (Z.div_unique _ _ _ 1); lia.
  - rewrite Pos2Z.inj_xO. apply (Z.div_unique _ _ _ 0); lia.
Qed.

(** [k] one-bit shifts divide the mantissa by [2^k]; the two sticky bits
    stay clear when nothing is lost. *)
Lemma shr_iter_spec (m : Z) (k : nat) :
  0 <= m ->
  let mrs :=
    Nat.iter k shr_1 {| shr_m := m; shr_r := false; shr_s := false |} in
  shr_m mrs = m / 2 ^ Z.of_nat k /\
  (m mod 2 ^ Z.of_nat k = 0 -> shr_r mrs = false /\ shr_s mrs = false).
Proof.
  intros Hm. induction k as [|k IH].
  - simpl. rewrite Z.div_1_r. auto.
  - cbv zeta in *. rewrite Nat.iter_succ.
    set (mrs := Nat.iter k shr_1 _) in *.
    destruct IH as [IHm IHx].
    assert (Hp : 0 < 2 ^ Z.of_nat k) by (apply Z.pow_pos_nonneg; lia).
    assert (Hq : 0 <= shr_m mrs) by (rewrite IHm; apply Z.div_pos; lia).
    rewrite (shr_1_spec mrs Hq). simpl shr_m; simpl shr_r; simpl shr_s.
    rewrite Nat2Z.inj_succ, Z.pow_succ_r by lia.
    split.
    + rewrite IHm, Z.div_div by lia. f_equal. lia.
    + intros Hmod.
      apply Z.mod_divide in Hmod; [|lia]. destruct Hmod as [q Hq'].
      assert (Hk : m mod 2 ^ Z.of_nat k = 0).
      { apply Z.mod_divide; [lia|]. exists (q * 2). lia. }
      destruct (IHx Hk) as [-> ->]. split; [|reflexivity].
      rewrite IHm. replace m with ((q * 2) * 2 ^ Z.of_nat k) by lia.
      rewrite Z.div_mul by lia. rewrite Z.mul_comm, Z.odd_mul. reflexivity.
Qed.

(** Shifts keep a non-negative mantissa non-negative. *)
Lemma shr_iter_nonneg (k : nat) (mrs : shr_record) :
  0 <= shr_m mrs -> 0 <= shr_m (Nat.iter k shr_1 mrs).
Proof.
  intros Hm. induction k as [|k IH]; [exact Hm|].
  rewrite Nat.iter_succ, (shr_1_spec _ IH). simpl.
  apply Z.div_pos; lia.
Qed.

(** The exponent of a binary64 number of magnitude [x]. *)
Lemma fexp64_eq (x : Z) : fexp64 x = Z.max (x - 53) (-1074).
Proof. reflexivity. Qed.

(** Truncation of an exact non-negative mantissa to the exponent of the
    format: a division by a power of two, exact when nothing is lost. *)
Lemma shr_fexp_spec (m e : Z) :
  0 <= m ->
  exists mrs,
    shr_fexp prec emax m e loc_Exact
      = (mrs, Z.max e (fexp64 (Zdigits2 m + e))) /\
    shr_m mrs = m / 2 ^ (Z.max e (fexp64 (Zdigits2 m + e)) - e) /\
    (m mod 2 ^ (Z.max e (fexp64 (Zdigits2 m + e)) - e) = 0 ->
     loc_of_shr_record mrs = loc_Exact).
Proof.
  intros Hm. unfold shr_fexp, shr. cbn [shr_record_of_loc].
  set (f := fexp64 (Zdigits2 m + e)).
  destruct (f - e) as [|p|p] eqn:Hn.
  - exists {| shr_m := m; shr_r := false; shr_s := false |}.
    replace (Z.max e f) with e by lia. rewrite Z.sub_diag, Z.div_1_r. auto.
  - rewrite iter_pos_nat.
    destruct (shr_iter_spec m (Pos.to_nat p) Hm) as [H1 H2].
    rewrite positive_nat_Z in H1, H2.
    eexists. replace (Z.max e f) with (e + Z.pos p) by lia.
    replace (e + Z.pos p - e) with (Z.pos p) by lia.
    split; [reflexivity|]. split; [exact H1|].
    intros Hx. destruct (H2 Hx) as [Hr Hs].
    destruct (Nat.iter _ _ _) as [m' r' s']. simpl in *. subst. reflexivity.
  - exists {| shr_m := m; shr_r := false; shr_s := false |}.
    replace (Z.max e f) with e by lia. rewrite Z.sub_diag, Z.div_1_r. auto.
Qed.

Lemma shr_fexp_nonneg (m e : Z) (l : location) :
  0 <= m -> 0 <= shr_m (fst (shr_fexp prec emax m e l)).
Proof.
  intros Hm. unfold shr_fexp, shr.
  assert (H0 : 0 <= shr_m (shr_record_of_loc m l)).
  { destruct l as [|[]]; exact Hm. }
  destruct (fexp64 (Zdigits2 m + e) - e) as [|p|p]; simpl; try exact H0.
  rewrite iter_pos_nat. apply shr_iter_nonneg, H0.
Qed.

Lemma iter_xO_spec (m d : positive) :
  Z.pos (Pos.iter xO m d) = Z.pos m * 2 ^ Z.pos d.
Proof.
  induction d as [|d IH] using Pos.peano_ind.
  - simpl. lia.
  - rewrite Pos.iter_succ, Pos2Z.inj_xO, IH, Pos2Z.inj_succ, Z.pow_succ_r; lia.
Qed.

(** Alignment to a smaller exponent multiplies the mantissa by the power
    of two in between. *)
Lemma shl_align_spec (m : positive) (e e' : Z) :
  exists mz,
    shl_align m e e' = (mz, Z.min e e') /\
    Z.pos mz = Z.pos m * 2 ^ (e - Z.min e e').
Proof.
  unfold shl_align. destruct (e' - e) as [|p|p] eqn:E.
  - exists m. replace (Z.min e e') with e by lia.
    rewrite Z.sub_diag. split; [reflexivity|simpl; lia].
  - exists m. replace (Z.min e e') with e by lia.
    rewrite Z.sub_diag. split; [reflexivity|simpl; lia].
  - exists (Pos.iter xO m p). replace (Z.min e e') with e' by lia.
    split; [reflexivity|]. rewrite iter_xO_spec. f_equal. f_equal. lia.
Qed.

Lemma shl_align_le (m : positive) (e ez : Z) :
  (ez <= e)%Z ->
  exists mz, shl_align m e ez = (mz, ez) /\
             Z.pos mz = (Z.pos m * 2 ^ (e - ez))%Z.
Proof.
  intros H. destruct (shl_align_spec m e ez) as (mz & Hs & Hm).
  replace (Z.min e ez) with ez in * by lia. eauto.
Qed.

End Shifts.

(** ** Values as rationals *)

Section Values.
Local Open Scope Z_scope.

Lemma bpow_pos (e : Z) : (0 < 2 ^ e)%Q.
Proof. apply Qpower_0_lt. reflexivity. Qed.

Lemma bpow_add (a b : Z) : (2 ^ (a + b) == 2 ^ a * 2 ^ b)%Q.
Proof. apply Qpower_plus. discriminate. Qed.

Lemma bpow_inject (n : Z) : 0 <= n -> (2 ^ n == inject_Z (2 ^ n))%Q.
Proof. intros Hn. rewrite Zpower_Qpower by assumption. reflexivity. Qed.

Lemma bpow_le (a b : Z) : a <= b -> (2 ^ a <= 2 ^ b)%Q.
Proof. intros H. apply Qpower_le_compat_l; [assumption|discriminate]. Qed.

(** Bits can move between the mantissa and the exponent. *)
Lemma F2Q_shift (m e k : Z) : 0 <= k -> (F2Q (m * 2 ^ k) e == F2Q m (e + k))%Q.
Proof.
  intros Hk. unfold F2Q.
  rewrite inject_Z_mult, bpow_add, (bpow_inject k Hk). ring.
Qed.

(** At one exponent the values compare as the mantissas. *)
Lemma F2Q_le_same (m m' e : Z) : (F2Q m e <= F2Q m' e)%Q <-> m <= m'.
Proof.
  unfold F2Q. pose proof (bpow_pos e) as Hp. split; intros H.
  - apply Qmult_le_r in H; [|assumption]. now rewrite <- Zle_Qle in H.
  - apply Qmult_le_r; [assumption|]. now rewrite <- Zle_Qle.
Qed.

Lemma F2Q_lt_same (m m' e : Z) : (F2Q m e < F2Q m' e)%Q <-> m < m'.
Proof.
  unfold F2Q. pose proof (bpow_pos e) as Hp. split; intros H.
  - apply Qmult_lt_r in H; [|assumption]. now rewrite <- Zlt_Qlt in H.
  - apply Qmult_lt_r; [assumption|]. now rewrite <- Zlt_Qlt.
Qed.

(** Comparison of two scaled integers, reduced to the smaller exponent. *)
Lemma F2Q_le_l (m m' e e' : Z) :
  e <= e' -> (F2Q m e <= F2Q m' e')%Q <-> m <= m' * 2 ^ (e' - e).
Proof.
  intros He. rewrite <- (F2Q_le_same m (m' * 2 ^ (e' - e)) e).
  rewrite F2Q_shift by lia. replace (e + (e' - e)) with e' by lia. reflexivity.
Qed.

Lemma F2Q_le_r (m m' e e' : Z) :
  e' <= e -> (F2Q m e <= F2Q m' e')%Q <-> m * 2 ^ (e - e') <= m'.
Proof.
  intros He. rewrite <- (F2Q_le_same (m * 2 ^ (e - e')) m' e').
  rewrite F2Q_shift by lia. replace (e' + (e - e')) with e by lia. reflexivity.
Qed.

(** Mantissas multiply and exponents add. *)
Lemma F2Q_mul (m m' e e' : Z) :
  (F2Q (m * m') (e + e') == F2Q m e * F2Q m' e')%Q.
Proof. unfold F2Q. rewrite inject_Z_mult, bpow_add. ring. Qed.

Lemma F2Q_pos (m e : Z) : 0 < m -> (0 < F2Q m e)%Q.
Proof.
  intros Hm. unfold F2Q. apply Qmult_lt_0_compat; [|apply bpow_pos].
  now rewrite Zlt_Qlt in Hm.
Qed.

Lemma F2Q_pow2 (k e : Z) : 0 <= k -> (F2Q (2 ^ k) e == 2 ^ (k + e))%Q.
Proof.
  intros Hk. unfold F2Q. rewrite bpow_add, (bpow_inject k Hk). reflexivity.
Qed.

(** A number with fewer binary digits in front of its exponent is smaller. *)
Lemma F2Q_lt_digits (m e m' e' : Z) :
  0 < m -> 0 <= m' -> Zdigits2 m' + e' <= Zdigits2 m - 1 + e ->
  (F2Q m' e' < F2Q m e)%Q.
Proof.
  intros Hm Hm' Hd.
  pose proof (Zdigits2_bounds m Hm) as [Hlo _].
  pose proof (Zdigits2_upper m' Hm') as Hhi.
  pose proof (Zdigits2_nonneg m').
  assert (0 < Zdigits2 m).
  { rewrite Zdigits2_log2 by assumption. pose proof (Z.log2_nonneg m). lia. }
  apply Qlt_le_trans with (F2Q (2 ^ Zdigits2 m') e').
  { apply F2Q_lt_same. assumption. }
  apply Qle_trans with (F2Q (2 ^ (Zdigits2 m - 1)) e).
  { rewrite !F2Q_pow2 by lia. apply bpow_le. lia. }
  apply F2Q_le_same. assumption.
Qed.

(** The value of the float [1.0]. *)
Lemma F2Q_one : (F2Q (Z.pos 4503599627370496) (-52) == 1)%Q.
Proof. reflexivity. Qed.

End Values.

(** ** Rounding to nearest, ties to even *)

Section Rounding.
Local Open Scope Z_scope.

(** Rounding to nearest adds at most one unit, and nothing to an exact
    mantissa. *)
Lemma round_nearest_even_spec (m : Z) (l : location) :
  m <= round_nearest_even m l <= m + 1 /\
  (l = loc_Exact -> round_nearest_even m l = m).
Proof.
  destruct l as [|[]]; simpl; try (split; [lia|try reflexivity; discriminate]).
  destruct (Z.even m); split; try lia; discriminate.
Qed.

(** The rounding of [m * 2^e]: one truncation to the exponent of the
    format, a rounding step of at most one unit, one renormalisation. *)
Lemma binary_round_aux_spec (sx : bool) (m e : Z) :
  0 <= m ->
  let e1 := Z.max e (fexp64 (Zdigits2 m + e)) in
  let m1 := m / 2 ^ (e1 - e) in
  exists m2,
    m1 <= m2 <= m1 + 1 /\
    (m mod 2 ^ (e1 - e) = 0 -> m2 = m1) /\
    let e3 := Z.max e1 (fexp64 (Zdigits2 m2 + e1)) in
    binary_round_aux prec emax sx m e loc_Exact =
      match m2 / 2 ^ (e3 - e1) with
      | Z0 => S754_zero sx
      | Zpos p => if e3 <=? emax - prec then S754_finite sx p e3
                  else S754_infinity sx
      | Zneg _ => S754_nan
      end.
Proof.
  intros Hm e1 m1. unfold binary_round_aux.
  destruct (shr_fexp_spec m e Hm) as (mrs & -> & Hmrs & Hx).
  fold e1 in Hmrs, Hx |- *. fold m1 in Hmrs.
  destruct (round_nearest_even_spec (shr_m mrs) (loc_of_shr_record mrs))
    as [Hr Hre].
  set (m2 := round_nearest_even _ _) in *.
  assert (H1 : 0 <= m1).
  { apply Z.div_pos; [assumption|apply Z.pow_pos_nonneg; lia]. }
  assert (Hm2 : 0 <= m2) by lia.
  destruct (shr_fexp_spec m2 e1 Hm2) as (mrs2 & -> & Hmrs2 & _).
  exists m2. rewrite Hmrs in Hr. split; [exact Hr|].
  split.
  - intros Hmod. rewrite <- Hmrs. apply Hre, Hx, Hmod.
  - cbv zeta. rewrite Hmrs2. reflexivity.
Qed.

(** After a truncation to the format, the second shift is by at most one
    bit and loses nothing. *)
Lemma renormalise_exact (m1 m2 e1 : Z) :
  0 <= m1 -> fexp64 (Zdigits2 m1 + e1) <= e1 -> m1 <= m2 <= m1 + 1 ->
  let e3 := Z.max e1 (fexp64 (Zdigits2 m2 + e1)) in
  (m2 / 2 ^ (e3 - e1)) * 2 ^ (e3 - e1) = m2 /\ e1 <= e3.
Proof.
  intros H1 Hc Hm2. cbv zeta.
  remember (Z.max e1 (fexp64 (Zdigits2 m2 + e1))) as e3 eqn:He3.
  split; [|lia].
  assert (Hsame : e3 = e1 -> m2 / 2 ^ (e3 - e1) * 2 ^ (e3 - e1) = m2).
  { intros ->. rewrite Z.sub_diag, Z.div_1_r. simpl. lia. }
  assert (E : m2 = m1 \/ m2 = m1 + 1) by lia.
  destruct E as [->| ->]; [apply Hsame; lia|].
  destruct (Zdigits2_succ m1 H1) as [E|[E P]].
  - apply Hsame. rewrite E in He3. lia.
  - rewrite E in He3. rewrite !fexp64_eq in *.
    pose proof (Zdigits2_nonneg m1) as Hd.
    destruct (Z.eq_dec e3 e1) as [Heq|Hne]; [apply Hsame, Heq|].
    assert (He : e3 - e1 = 1) by lia.
    assert (0 < Zdigits2 m1) by lia.
    rewrite He, P.
    assert (Hp : 2 ^ Zdigits2 m1 = 2 ^ (Zdigits2 m1 - 1) * 2 ^ 1).
    { rewrite <- Z.pow_add_r by lia. f_equal. lia. }
    rewrite Hp, Z.div_mul by lia. reflexivity.
Qed.

(** A valid finite number has the exponent of its magnitude, below the
    overflow threshold. *)
Lemma bounded_spec (m : positive) (e : Z) :
  bounded prec emax m e = true ->
  fexp64 (Zdigits2 (Z.pos m) + e) = e /\ e <= 971.
Proof.
  unfold bounded, canonical_mantissa. intros H.
  apply andb_prop in H. destruct H as [H1 H2].
  apply Z.eqb_eq in H1. apply Z.leb_le in H2. split; [exact H1|exact H2].
Qed.

(** A truncated mantissa has no more digits than its exponent allows. *)
Lemma trunc_canonical (m e : Z) :
  0 <= m ->
  let e1 := Z.max e (fexp64 (Zdigits2 m + e)) in
  fexp64 (Zdigits2 (m / 2 ^ (e1 - e)) + e1) <= e1.
Proof.
  intros Hm e1.
  pose proof (Zdigits2_div_pow2 m (e1 - e) Hm ltac:(lia)) as Hd.
  unfold e1 in *. rewrite !fexp64_eq in *. lia.
Qed.

(** Comparison of two valid positive finite numbers follows their values. *)
Lemma SFleb_finite_pos (m1 m2 : positive) (e1 e2 : Z) :
  bounded prec emax m1 e1 = true -> bounded prec emax m2 e2 = true ->
  (F2Q (Z.pos m1) e1 <= F2Q (Z.pos m2) e2)%Q ->
  SFleb (S754_finite false m1 e1) (S754_finite false m2 e2) = true.
Proof.
  intros V1 V2 Hle.
  apply bounded_spec in V1, V2. destruct V1 as [C1 _], V2 as [C2 _].
  unfold SFleb, SFcompare.
  destruct (Z.compare_spec e1 e2) as [E|L|G].
  - subst e2. apply F2Q_le_same in Hle.
    change (Pos.compare_cont Eq m1 m2) with (Pos.compare m1 m2).
    destruct (Pos.compare_spec m1 m2); try reflexivity. lia.
  - reflexivity.
  - exfalso. apply (Qlt_not_le _ _ (F2Q_lt_digits (Z.pos m1) e1 (Z.pos m2) e2
      ltac:(lia) ltac:(lia) ltac:(rewrite !fexp64_eq in *; lia))).
    exact Hle.
Qed.

(** Rounding stays below a representable upper bound of the exact value. *)
Lemma binary_round_aux_upper (sx : bool) (m e : Z) (mB : positive) (eB : Z) :
  0 < m -> e <= fexp64 (Zdigits2 m + e) ->
  bounded prec emax mB eB = true ->
  (F2Q m e <= F2Q (Z.pos mB) eB)%Q ->
  binary_round_aux prec emax sx m e loc_Exact = S754_zero sx \/
  exists m3 e3,
    binary_round_aux prec emax sx m e loc_Exact = S754_finite sx m3 e3 /\
    (F2Q (Z.pos m3) e3 <= F2Q (Z.pos mB) eB)%Q.
Proof.
  intros Hm Hpre VB Hle.
  destruct (bounded_spec _ _ VB) as [CB EB].
  destruct (binary_round_aux_spec sx m e ltac:(lia)) as (m2 & Hm2 & Hex & Hres).
  cbv zeta in *.
  pose proof (trunc_canonical m e ltac:(lia)) as Hc1. cbv zeta in Hc1.
  set (d := Zdigits2 m) in *.
  replace (Z.max e (fexp64 (d + e))) with (fexp64 (d + e)) in * by lia.
  set (e1 := fexp64 (d + e)) in *.
  set (m1 := m / 2 ^ (e1 - e)) in *.
  assert (Hp : 0 < 2 ^ (e1 - e)) by (apply Z.pow_pos_nonneg; lia).
  assert (H1 : 0 <= m1) by (apply Z.div_pos; lia).
  (* the bound lives on the grid of the truncation *)
  assert (He1 : e1 <= eB).
  { destruct (Z_le_gt_dec e1 eB) as [|G]; [assumption|exfalso].
    apply (Qlt_not_le _ _ (F2Q_lt_digits m e (Z.pos mB) eB
      Hm ltac:(lia)
      ltac:(fold d; unfold e1 in *; rewrite !fexp64_eq in *; lia))).
    exact Hle. }
  set (b := Z.pos mB * 2 ^ (eB - e1)).
  assert (Hpb : 0 < 2 ^ (eB - e1)) by (apply Z.pow_pos_nonneg; lia).
  assert (Hmb : m <= b * 2 ^ (e1 - e)).
  { apply (F2Q_le_l m (Z.pos mB) e eB ltac:(lia)) in Hle.
    unfold b. rewrite <- Z.mul_assoc, <- Z.pow_add_r by lia.
    replace (eB - e1 + (e1 - e)) with (eB - e) by lia. exact Hle. }
  assert (Hm1b : m1 <= b).
  { unfold m1. apply Z.div_le_upper_bound; [assumption|]. lia. }
  assert (Hm2b : m2 <= b).
  { destruct (Z.eq_dec m1 b) as [E|]; [|lia].
    rewrite Hex; [lia|].
    pose proof (Z.mul_div_le m (2 ^ (e1 - e)) Hp). fold m1 in H.
    assert (Hmeq : m = b * 2 ^ (e1 - e)) by nia.
    rewrite Hmeq. apply Z.mod_mul. lia. }
  destruct (renormalise_exact m1 m2 e1 H1 Hc1 Hm2) as [Hx He3].
  cbv zeta in Hx, He3.
  set (e3 := Z.max e1 (fexp64 (Zdigits2 m2 + e1))) in *.
  assert (He3B : e3 <= eB).
  { assert (Zdigits2 m2 <= Zdigits2 b) by (apply Zdigits2_le; lia).
    assert (Zdigits2 b = Zdigits2 (Z.pos mB) + (eB - e1)).
    { unfold b. apply Zdigits2_mul_pow2; lia. }
    unfold e3. rewrite !fexp64_eq in *. lia. }
  assert (Hle3 : (e3 <=? emax - prec) = true).
  { apply Z.leb_le. change (emax - prec) with 971. lia. }
  rewrite Hle3 in Hres.
  assert (Hp3 : 0 < 2 ^ (e3 - e1)) by (apply Z.pow_pos_nonneg; lia).
  assert (Hm3 : 0 <= m2 / 2 ^ (e3 - e1)) by (apply Z.div_pos; lia).
  destruct (m2 / 2 ^ (e3 - e1)) as [|p|p] eqn:E3; [left; exact Hres| |lia].
  right. exists p, e3. split; [exact Hres|].
  apply Qle_trans with (F2Q m2 e1).
  { rewrite <- Hx, F2Q_shift by lia.
    replace (e1 + (e3 - e1)) with e3 by lia. apply Qle_refl. }
  apply Qle_trans with (F2Q b e1).
  { apply F2Q_le_same. assumption. }
  unfold b. rewrite F2Q_shift by lia.
  replace (e1 + (eB - e1)) with eB by lia. apply Qle_refl.
Qed.

(** Rounding stays above a representable lower bound of the exact value. *)
Lemma binary_round_aux_lower (sx : bool) (m e : Z) (mB : positive) (eB : Z) :
  0 < m ->
  bounded prec emax mB eB = true ->
  (F2Q (Z.pos mB) eB <= F2Q m e)%Q ->
  binary_round_aux prec emax sx m e loc_Exact = S754_infinity sx \/
  exists m3 e3,
    binary_round_aux prec emax sx m e loc_Exact = S754_finite sx m3 e3 /\
    (F2Q (Z.pos mB) eB <= F2Q (Z.pos m3) e3)%Q.
Proof.
  intros Hm VB Hle.
  destruct (bounded_spec _ _ VB) as [CB EB].
  destruct (binary_round_aux_spec sx m e ltac:(lia)) as (m2 & Hm2 & Hex & Hres).
  cbv zeta in *.
  pose proof (trunc_canonical m e ltac:(lia)) as Hc1. cbv zeta in Hc1.
  set (d := Zdigits2 m) in *.
  set (e1 := Z.max e (fexp64 (d + e))) in *.
  set (m1 := m / 2 ^ (e1 - e)) in *.
  assert (Hp : 0 < 2 ^ (e1 - e)) by (apply Z.pow_pos_nonneg; lia).
  assert (H1 : 0 <= m1) by (apply Z.div_pos; lia).
  assert (Hd : 0 < d).
  { unfold d. rewrite Zdigits2_log2 by assumption.
    pose proof (Z.log2_nonneg m). lia. }
  (* the truncation is still above the bound *)
  assert (Hle1 : (F2Q (Z.pos mB) eB <= F2Q m1 e1)%Q).
  { destruct (Z_le_gt_dec e1 eB) as [L|G].
    - apply F2Q_le_r; [assumption|].
      apply (F2Q_le_r (Z.pos mB) m eB e ltac:(lia)) in Hle.
      unfold m1. apply Z.div_le_lower_bound; [assumption|].
      rewrite Z.mul_comm, <- Z.mul_assoc, <- Z.pow_add_r by lia.
      replace (eB - e1 + (e1 - e)) with (eB - e) by lia. exact Hle.
    - destruct (Z.eq_dec e1 e) as [E|N].
      + unfold m1. rewrite E, Z.sub_diag, Z.div_1_r. exact Hle.
      + apply Qlt_le_weak, F2Q_lt_digits; [| lia |].
        * assert (2 ^ (d - 1 - (e1 - e)) <= m1).
          { unfold m1.
            pose proof (Zdigits2_bounds m Hm) as [Hlo _]. fold d in Hlo.
            apply Z.div_le_lower_bound; [assumption|].
            rewrite <- Z.pow_add_r;
              [|lia|unfold e1 in *; rewrite !fexp64_eq in *; lia].
            replace (e1 - e + (d - 1 - (e1 - e))) with (d - 1) by lia.
            exact Hlo. }
          assert (0 < 2 ^ (d - 1 - (e1 - e))).
          { apply Z.pow_pos_nonneg; [lia|].
            unfold e1 in *; rewrite !fexp64_eq in *; lia. }
          lia.
        * assert (Hlow : 2 ^ 52 <= m1).
          { unfold m1.
            pose proof (Zdigits2_bounds m Hm) as [Hlo _]. fold d in Hlo.
            apply Z.div_le_lower_bound; [assumption|].
            rewrite <- Z.pow_add_r;
              [|unfold e1 in *; rewrite !fexp64_eq in *; lia|lia].
            replace (e1 - e + 52) with (d - 1)
              by (unfold e1 in *; rewrite !fexp64_eq in *; lia).
            exact Hlo. }
          assert (Z.log2 (2 ^ 52) <= Z.log2 m1) by (apply Z.log2_le_mono, Hlow).
          rewrite Z.log2_pow2 in H by lia.
          rewrite (Zdigits2_log2 m1) by lia.
          unfold e1 in *. rewrite !fexp64_eq in *. lia. }
  assert (Hle2 : (F2Q (Z.pos mB) eB <= F2Q m2 e1)%Q).
  { apply Qle_trans with (F2Q m1 e1); [exact Hle1|].
    apply F2Q_le_same. lia. }
  destruct (renormalise_exact m1 m2 e1 H1 Hc1 Hm2) as [Hx He3].
  cbv zeta in Hx, He3.
  set (e3 := Z.max e1 (fexp64 (Zdigits2 m2 + e1))) in *.
  assert (Hp3 : 0 < 2 ^ (e3 - e1)) by (apply Z.pow_pos_nonneg; lia).
  assert (Hle3 : (F2Q (Z.pos mB) eB <= F2Q (m2 / 2 ^ (e3 - e1)) e3)%Q).
  { apply Qle_trans with (F2Q m2 e1); [exact Hle2|].
    rewrite <- Hx at 1. rewrite F2Q_shift by lia.
    replace (e1 + (e3 - e1)) with e3 by lia. apply Qle_refl. }
  destruct (m2 / 2 ^ (e3 - e1)) as [|p|p] eqn:E3.
  - exfalso. pose proof (F2Q_pos (Z.pos mB) eB ltac:(lia)) as HB.
    unfold F2Q in Hle3 at 2. rewrite Qmult_0_l in Hle3.
    apply (Qlt_not_le _ _ HB Hle3).
  - destruct (e3 <=? emax - prec).
    + right. exists p, e3. split; [exact Hres|exact Hle3].
    + left. exact Hres.
  - assert (0 <= m2 / 2 ^ (e3 - e1)) by (apply Z.div_pos; lia). lia.
Qed.

(** Rounding a non-negative mantissa keeps the sign it is given. *)
Lemma binary_round_aux_signed (sx : bool) (m e : Z) (l : location) :
  0 <= m -> SFsigned sx (binary_round_aux prec emax sx m e l).
Proof.
  intros Hm. unfold binary_round_aux.
  pose proof (shr_fexp_nonneg m e l Hm) as H1.
  destruct (shr_fexp prec emax m e l) as [mrs' e'].
  cbn [fst] in H1.
  pose proof (round_nearest_even_spec (shr_m mrs') (loc_of_shr_record mrs'))
    as [[Hr _] _].
  set (m2 := round_nearest_even _ _) in *.
  pose proof (shr_fexp_nonneg m2 e' loc_Exact ltac:(lia)) as H2.
  destruct (shr_fexp prec emax m2 e' loc_Exact) as [mrs'' e''].
  cbn [fst] in H2.
  destruct (shr_m mrs'') as [|p|p]; [reflexivity| |lia].
  destruct (e'' <=? emax - prec); reflexivity.
Qed.

(** [binary_round] is [binary_round_aux] on an aligned mantissa of the
    same value. *)
Lemma binary_round_spec (sx : bool) (m : positive) (e : Z) :
  exists (mz : positive) (ez : Z),
    binary_round prec emax sx m e
      = binary_round_aux prec emax sx (Z.pos mz) ez loc_Exact /\
    (F2Q (Z.pos mz) ez == F2Q (Z.pos m) e)%Q /\
    ez <= fexp64 (Zdigits2 (Z.pos mz) + ez).
Proof.
  unfold binary_round.
  destruct (shl_align_spec m e (fexp64 (Z.pos (digits2_pos m) + e)))
    as (mz & -> & Hmz).
  set (ez := Z.min e _) in *.
  exists mz, ez. split; [reflexivity|].
  assert (Hez : ez <= e) by (unfold ez; lia).
  split.
  - rewrite Hmz, F2Q_shift by lia.
    replace (ez + (e - ez)) with e by lia. reflexivity.
  - rewrite Hmz, Zdigits2_mul_pow2 by lia.
    replace (Zdigits2 (Z.pos m) + (e - ez) + ez) with (Zdigits2 (Z.pos m) + e)
      by lia.
    unfold ez. simpl Zdigits2. lia.
Qed.

Lemma binary_round_signed (sx : bool) (m : positive) (e : Z) :
  SFsigned sx (binary_round prec emax sx m e).
Proof.
  destruct (binary_round_spec sx m e) as (mz & ez & -> & _).
  apply binary_round_aux_signed. lia.
Qed.

(** The exact product of two valid numbers needs no alignment. *)
Lemma mul_aligned (mx my : positive) (ex ey : Z) :
  bounded prec emax mx ex = true -> bounded prec emax my ey = true ->
  ex + ey <= fexp64 (Zdigits2 (Z.pos mx * Z.pos my) + (ex + ey)).
Proof.
  intros Vx Vy.
  destruct (bounded_spec _ _ Vx) as [Cx _], (bounded_spec _ _ Vy) as [Cy _].
  pose proof (Zdigits2_mul_lower (Z.pos mx) (Z.pos my) ltac:(lia) ltac:(lia)).
  assert (0 < Zdigits2 (Z.pos mx) /\ 0 < Zdigits2 (Z.pos my)) by (simpl; lia).
  rewrite !fexp64_eq in *. lia.
Qed.

End Rounding.

(** ** The operations on floats *)

Section Operations.
Local Open Scope Z_scope.
Local Open Scope float_scope.

Lemma Prim2SF_zero : Prim2SF 0 = S754_zero false.
Proof. reflexivity. Qed.

Lemma Prim2SF_one : Prim2SF 1 = S754_finite false 4503599627370496 (-52).
Proof. reflexivity. Qed.

(** The mantissa and exponent of a finite float are valid. *)
Lemma valid_finite (x : float) (s : bool) (m : positive) (e : Z) :
  Prim2SF x = S754_finite s m e -> bounded prec emax m e = true.
Proof.
  intros H. pose proof (Prim2SF_valid x) as V. rewrite H in V. exact V.
Qed.

(** A float above zero is a positive finite number or [+inf]. *)
Lemma pos_shape (x : float) :
  (0 <? x) = true ->
  (exists m e, Prim2SF x = S754_finite false m e) \/
  Prim2SF x = S754_infinity false.
Proof.
  rewrite ltb_spec, Prim2SF_zero. unfold SFltb, SFcompare.
  destruct (Prim2SF x) as [s|[]| |[] m e]; try discriminate; eauto.
Qed.

(** A float at or below zero is a zero, a negative finite number or [-inf]. *)
Lemma nonpos_shape (x : float) :
  (x <=? 0) = true -> SFsigned true (Prim2SF x) \/ Prim2SF x = S754_zero false.
Proof.
  rewrite leb_spec, Prim2SF_zero. unfold SFleb, SFcompare.
  destruct (Prim2SF x) as [[]|[]| |[] m e]; try discriminate; simpl; auto.
Qed.

(** A float with the sign bit set that is not NaN is at or below zero. *)
Lemma signed_true_nonpos (x : float) :
  SFsigned true (Prim2SF x) -> (x <=? 0) = true.
Proof.
  rewrite leb_spec, Prim2SF_zero. unfold SFleb, SFcompare.
  destruct (Prim2SF x) as [[]|[]| |[] m e]; simpl; intros H;
    try reflexivity; try discriminate; contradiction.
Qed.

(** [math.isfinite]: neither an infinity nor NaN. *)
Lemma finite_shape (x : float) :
  is_finite x = true ->
  (exists s, Prim2SF x = S754_zero s) \/
  (exists s m e, Prim2SF x = S754_finite s m e).
Proof.
  unfold is_finite, is_nan, is_infinity.
  rewrite !eqb_spec, abs_spec.
  change (Prim2SF infinity) with (S754_infinity false).
  unfold SFeqb, SFcompare, SFabs.
  destruct (Prim2SF x) as [s|s| |s m e]; simpl; try discriminate; eauto.
  destruct s; discriminate.
Qed.

(** The integer quotient of two positive mantissas is not negative. *)
Lemma SFdiv_core_binary_nonneg (m1 m2 : positive) (e1 e2 : Z) :
  0 <= fst (fst (SFdiv_core_binary prec emax (Z.pos m1) e1 (Z.pos m2) e2)).
Proof.
  unfold SFdiv_core_binary.
  set (s := (e1 - e2 - _)%Z).
  set (m' := match s with Z0 => _ | Zpos _ => _ | Zneg _ => _ end).
  assert (Hm' : (0 <= m')%Z).
  { unfold m'. destruct s; try lia. apply Z.shiftl_nonneg. lia. }
  pose proof (Z.div_pos m' (Z.pos m2) Hm' ltac:(lia)) as Hq.
  unfold Z.div in Hq.
  destruct (Z.div_eucl m' (Z.pos m2)) as [q r]. exact Hq.
Qed.

(** Division of a finite number by a non-zero number that is not NaN:
    the quotient carries the exclusive-or of the signs and is not NaN. *)
Lemma SFdiv_signed (x y : spec_float) (sx sy : bool) :
  (x = S754_zero sx \/ exists m e, x = S754_finite sx m e) ->
  (y = S754_infinity sy \/ exists m e, y = S754_finite sy m e) ->
  SFsigned (xorb sx sy) (SF64div x y).
Proof.
  intros [->|(mx & ex & ->)] [->|(my & ey & ->)]; try reflexivity.
  unfold SF64div, SFdiv.
  pose proof (SFdiv_core_binary_nonneg mx my ex ey) as Hq.
  destruct (SFdiv_core_binary prec emax (Z.pos mx) ex (Z.pos my) ey)
    as [[mz ez] lz].
  apply binary_round_aux_signed. exact Hq.
Qed.

(** [1.0 / l] for [l > 0]: [+0.0], positive finite or [+inf]. *)
Lemma recip_signed (l : float) :
  (0 <? l) = true -> SFsigned false (Prim2SF (1 / l)).
Proof.
  intros Hl. rewrite div_spec, Prim2SF_one.
  change false with (xorb false false).
  apply SFdiv_signed; [right; eauto|].
  destruct (pos_shape l Hl) as [(m & e & ->)| ->]; eauto.
Qed.

(** [1 - q] for [q >= 0]: negative, zero, or positive and at most one. *)
Lemma one_minus_shape (q : float) :
  SFsigned false (Prim2SF q) ->
  SFsigned true (Prim2SF (1 - q)) \/
  Prim2SF (1 - q) = S754_zero false \/
  exists m e, Prim2SF (1 - q) = S754_finite false m e /\
              (F2Q (Z.pos m) e <= 1)%Q.
Proof.
  intros Hq. rewrite sub_spec, Prim2SF_one.
  destruct (Prim2SF q) as [s|s| |s mq eq]; simpl in Hq; try contradiction;
    subst s.
  - right. right. do 2 eexists. split; [reflexivity|].
    rewrite F2Q_one. apply Qle_refl.
  - left. reflexivity.
  - unfold SF64sub, SFsub, cond_Zopp.
    set (ez := Z.min (-52) eq).
    destruct (shl_align_le 4503599627370496 (-52) ez ltac:(unfold ez; lia))
      as (a & -> & Ha).
    destruct (shl_align_le mq eq ez ltac:(unfold ez; lia)) as (b & -> & Hb).
    cbn [fst].
    assert (Hval : (F2Q (Z.pos a) ez == 1)%Q).
    { rewrite Ha, F2Q_shift by (unfold ez; lia).
      replace (ez + (-52 - ez))%Z with (-52)%Z by lia. apply F2Q_one. }
    unfold binary_normalize.
    destruct (Z.pos a - Z.pos b)%Z as [|p|p] eqn:D.
    + right. left. reflexivity.
    + right.
      destruct (binary_round_spec false p ez) as (mz & ez' & -> & Hv & Hal).
      destruct (binary_round_aux_upper false (Z.pos mz) ez'
                  4503599627370496 (-52) ltac:(lia) Hal eq_refl)
        as [Hz|(m3 & e3 & H3 & Hle)].
      * rewrite Hv, F2Q_one, <- Hval. apply F2Q_le_same. lia.
      * left. exact Hz.
      * right. exists m3, e3. split; [exact H3|].
        rewrite <- F2Q_one. exact Hle.
    + left. apply binary_round_signed.
Qed.

(** [1 + q] for [q >= 0]: [+inf], or finite and at least one. *)
Lemma one_plus_shape (q : float) :
  SFsigned false (Prim2SF q) ->
  Prim2SF (1 + q) = S754_infinity false \/
  exists m e, Prim2SF (1 + q) = S754_finite false m e /\
              (1 <= F2Q (Z.pos m) e)%Q.
Proof.
  intros Hq. rewrite add_spec, Prim2SF_one.
  destruct (Prim2SF q) as [s|s| |s mq eq]; simpl in Hq; try contradiction;
    subst s.
  - right. do 2 eexists. split; [reflexivity|].
    rewrite F2Q_one. apply Qle_refl.
  - left. reflexivity.
  - unfold SF64add, SFadd, cond_Zopp.
    set (ez := Z.min (-52) eq).
    destruct (shl_align_le 4503599627370496 (-52) ez ltac:(unfold ez; lia))
      as (a & -> & Ha).
    destruct (shl_align_le mq eq ez ltac:(unfold ez; lia)) as (b & -> & Hb).
    cbn [fst].
    assert (Hval : (F2Q (Z.pos a) ez == 1)%Q).
    { rewrite Ha, F2Q_shift by (unfold ez; lia).
      replace (ez + (-52 - ez))%Z with (-52)%Z by lia. apply F2Q_one. }
    change (Z.pos a + Z.pos b)%Z with (Z.pos (a + b)).
    unfold binary_normalize.
    destruct (binary_round_spec false (a + b) ez)
      as (mz & ez' & -> & Hv & Hal).
    destruct (binary_round_aux_lower false (Z.pos mz) ez'
                4503599627370496 (-52) ltac:(lia) eq_refl)
      as [Hi|(m3 & e3 & H3 & Hle)].
    + rewrite Hv, F2Q_one, <- Hval. apply F2Q_le_same. lia.
    + left. exact Hi.
    + right. exists m3, e3. split; [exact H3|].
      rewrite <- F2Q_one. exact Hle.
Qed.

(** Zeros, negative numbers and [-inf] are below every positive finite
    number. *)
Lemma SFleb_signed_true_pos (x : spec_float) (m : positive) (e : Z) :
  SFsigned true x \/ x = S754_zero false ->
  SFleb x (S754_finite false m e) = true.
Proof.
  intros [H| ->]; [|reflexivity].
  destruct x as [s|s| |s mx ex]; simpl in H; try contradiction; subst;
    reflexivity.
Qed.

(** The product of two finite floats is the rounding of the exact
    product. *)
Lemma mul_finite_spec (x y : float) (sy : bool) (mx my : positive)
  (ex ey : Z) :
  Prim2SF x = S754_finite false mx ex ->
  Prim2SF y = S754_finite sy my ey ->
  Prim2SF (x * y)
    = binary_round_aux prec emax sy (Z.pos (mx * my)) (ex + ey) loc_Exact.
Proof.
  intros Hx Hy. rewrite mul_spec, Hx, Hy. reflexivity.
Qed.

(** Multiplying a positive finite [x] by a factor that is at most one
    gives at most [x]. *)
Lemma mul_le_self (x y : float) (mx : positive) (ex : Z) :
  Prim2SF x = S754_finite false mx ex ->
  (SFsigned true (Prim2SF y) \/
   Prim2SF y = S754_zero false \/
   exists m e, Prim2SF y = S754_finite false m e /\
               (F2Q (Z.pos m) e <= 1)%Q) ->
  (x * y <=? x) = true.
Proof.
  intros Hx Hy. pose proof (valid_finite _ _ _ _ Hx) as Vx.
  rewrite leb_spec, Hx.
  destruct Hy as [Hy|[Hy|(my & ey & Hy & Hle)]].
  - apply SFleb_signed_true_pos. left.
    destruct (Prim2SF y) as [s|s| |s my ey] eqn:Ey; simpl in Hy;
      try contradiction; subst s.
    + rewrite mul_spec, Hx, Ey. reflexivity.
    + rewrite mul_spec, Hx, Ey. reflexivity.
    + rewrite (mul_finite_spec x y true mx my ex ey Hx Ey).
      apply binary_round_aux_signed. lia.
  - apply SFleb_signed_true_pos. right. rewrite mul_spec, Hx, Hy. reflexivity.
  - pose proof (valid_finite _ _ _ _ Hy) as Vy.
    pose proof (mul_finite_spec x y false mx my ex ey Hx Hy) as Hz.
    destruct (binary_round_aux_upper false (Z.pos (mx * my)) (ex + ey)
                mx ex ltac:(lia) (mul_aligned mx my ex ey Vx Vy) Vx)
      as [H0|(m3 & e3 & H3 & Hle3)].
    + rewrite Pos2Z.inj_mul, F2Q_mul.
      pose proof (F2Q_pos (Z.pos mx) ex ltac:(lia)). nra.
    + rewrite Hz, H0. reflexivity.
    + rewrite H3 in Hz. rewrite Hz.
      apply SFleb_finite_pos; [exact (valid_finite _ _ _ _ Hz)| |];
        assumption.
Qed.

(** Multiplying a positive finite [x] by a factor that is at least one
    gives at least [x]. *)
Lemma mul_ge_self (x y : float) (mx : positive) (ex : Z) :
  Prim2SF x = S754_finite false mx ex ->
  (Prim2SF y = S754_infinity false \/
   exists m e, Prim2SF y = S754_finite false m e /\
               (1 <= F2Q (Z.pos m) e)%Q) ->
  (x <=? x * y) = true.
Proof.
  intros Hx Hy. pose proof (valid_finite _ _ _ _ Hx) as Vx.
  rewrite leb_spec, Hx.
  destruct Hy as [Hy|(my & ey & Hy & Hle)].
  - rewrite mul_spec, Hx, Hy. reflexivity.
  - pose proof (mul_finite_spec x y false mx my ex ey Hx Hy) as Hz.
    destruct (binary_round_aux_lower false (Z.pos (mx * my)) (ex + ey)
                mx ex ltac:(lia) Vx)
      as [Hi|(m3 & e3 & H3 & Hle3)].
    + rewrite Pos2Z.inj_mul, F2Q_mul.
      pose proof (F2Q_pos (Z.pos mx) ex ltac:(lia)). nra.
    + rewrite Hz, Hi. reflexivity.
    + rewrite H3 in Hz. rewrite Hz.
      apply SFleb_finite_pos; [|exact (valid_finite _ _ _ _ Hz)|];
        assumption.
Qed.

(** A float equal to zero is one of the two zeros. *)
Lemma zero_shape (x : float) :
  (x =? 0) = true -> exists s, Prim2SF x = S754_zero s.
Proof.
  rewrite eqb_spec, Prim2SF_zero. unfold SFeqb, SFcompare.
  destruct (Prim2SF x) as [s|[]| |[] m e]; try discriminate; eauto.
Qed.

(** Neither a zero nor NaN is above zero. *)
Lemma zero_or_nan_not_pos (x : float) :
  (Prim2SF x = S754_nan \/ exists s, Prim2SF x = S754_zero s) ->
  (0 <? x) = false.
Proof.
  rewrite ltb_spec, Prim2SF_zero.
  intros [->|(s & ->)]; reflexivity.
Qed.

(** A zero times anything is a zero or NaN. *)
Lemma zero_or_nan_mul (x y : float) :
  (x =? 0) = true ->
  Prim2SF (x * y) = S754_nan \/ exists s, Prim2SF (x * y) = S754_zero s.
Proof.
  intros Hx. destruct (zero_shape x Hx) as (s & Hs).
  rewrite mul_spec, Hs. unfold SF64mul, SFmul.
  destruct (Prim2SF y) as [sy|sy| |sy my ey]; eauto.
Qed.

(** A zero or NaN divided by anything is a zero or NaN. *)
Lemma zero_or_nan_div (x y : float) :
  (Prim2SF x = S754_nan \/ exists s, Prim2SF x = S754_zero s) ->
  Prim2SF (x / y) = S754_nan \/ exists s, Prim2SF (x / y) = S754_zero s.
Proof.
  rewrite div_spec. unfold SF64div, SFdiv.
  intros [->|(s & ->)]; [left; reflexivity|].
  destruct (Prim2SF y) as [sy|sy| |sy my ey]; eauto.
Qed.

(** The quotient of a finite float by a float above zero is not NaN. *)
Lemma div_finite_pos_signed (x y : float) :
  is_finite x = true -> (0 <? y) = true ->
  exists s, SFsigned s (Prim2SF (x / y)).
Proof.
  intros Hx Hy. rewrite div_spec.
  assert (Hy' : Prim2SF y = S754_infinity false \/
                exists m e, Prim2SF y = S754_finite false m e).
  { destruct (pos_shape y Hy) as [H|H]; auto. }
  destruct (finite_shape x Hx) as [(s & Hs)|(s & m & e & Hs)];
    exists (xorb s false); apply SFdiv_signed; eauto.
Qed.

(** A finite float at or below zero divided by a float above zero is at
    or below zero. *)
Lemma div_nonpos (x y : float) :
  is_finite x = true -> (x <=? 0) = true -> (0 <? y) = true ->
  (x / y <=? 0) = true.
Proof.
  intros Hf Hx Hy.
  destruct (finite_shape x Hf) as [(s & Hs)|(s & m & e & Hs)].
  - rewrite leb_spec, div_spec, Hs, Prim2SF_zero.
    destruct (pos_shape y Hy) as [(my & ey & ->)| ->]; reflexivity.
  - apply signed_true_nonpos. rewrite div_spec.
    assert (s = true) as ->.
    { destruct (nonpos_shape x Hx) as [H|H]; rewrite Hs in H;
        [exact H|discriminate]. }
    change true with (xorb true false). apply SFdiv_signed; [eauto|].
    destruct (pos_shape y Hy) as [H|H]; auto.
Qed.

(** Zero divided by a float that is neither NaN nor at or below zero. *)
Lemma div_zero_num (x y : float) (s : bool) :
  (x =? 0) = true -> SFsigned s (Prim2SF y) -> (y <=? 0) = false ->
  (x / y =? 0) = true.
Proof.
  intros Hx Hs Hy. destruct (zero_shape x Hx) as (sx & Hsx).
  rewrite leb_spec, Prim2SF_zero in Hy.
  rewrite eqb_spec, div_spec, Hsx, Prim2SF_zero.
  destruct (Prim2SF y) as [sy|sy| |sy my ey]; simpl in Hs;
    try contradiction; try reflexivity.
  discriminate Hy.
Qed.

End Operations.

(** * The sizing functions *)

Section Sizing.

(** ** What the functions return when the leverage passes the guard *)

(** A divisor that is not at or below zero is not zero: the division
    does not raise. *)
Lemma truediv_ok (x y : float) :
  (y <=? 0) = false -> Py.truediv x y = Ok (x / y).
Proof.
  intros H. unfold Py.truediv. rewrite (leb_false_eqb y 0 H). reflexivity.
Qed.

Lemma liquidation_price_ok (e l : float) (s : Side) :
  (l <=? 0) = false ->
  liquidation_price e l s
    = Ok (if Side_eqb s Long then e * (1 - 1 / l) else e * (1 + 1 / l)).
Proof.
  intros H. unfold liquidation_price.
  rewrite H, (truediv_ok 1 l H). destruct (Side_eqb s Long); reflexivity.
Qed.

Lemma margin_per_unit_ok (e l : float) :
  (l <=? 0) = false -> margin_per_unit e l = Ok (e / l).
Proof.
  intros H. unfold margin_per_unit. rewrite H. apply truediv_ok, H.
Qed.

Lemma max_units_affordable_ok (q e l : float) :
  (l <=? 0) = false ->
  max_units_affordable q e l
    = Ok (if e / l <=? 0 then 0 else q / (e / l)).
Proof.
  intros H. unfold max_units_affordable.
  rewrite (margin_per_unit_ok e l H). cbn [bind].
  destruct (e / l <=? 0) eqn:E; [reflexivity|apply truediv_ok, E].
Qed.

(** [safe_units_by_risk] never raises: the division is guarded. *)
Lemma safe_units_by_risk_ok (q r pu : float) :
  safe_units_by_risk q r pu
    = Ok (if pu <=? 0 then 0 else q * Py.max2 0 r / pu).
Proof.
  unfold safe_units_by_risk. cbv zeta.
  destruct (pu <=? 0) eqn:E; [reflexivity|apply truediv_ok, E].
Qed.

(** With a leverage that passes the guard, [recommend_units] returns, and
    every entry of its result is a closed expression of the inputs. *)
Lemma recommend_units_ok (inp : RiskInput) (live_price : float) :
  (leverage inp <=? 0) = false ->
  let e := entry inp in
  let l := leverage inp in
  let q := equity_usd inp in
  let liq := if Side_eqb (side inp) Long
             then e * (1 - 1 / l) else e * (1 + 1 / l) in
  let mpu := e / l in
  let max_by_margin := if mpu <=? 0 then 0 else q / mpu in
  let pu_risk := per_unit_risk e (stop_loss inp) (side inp) in
  let units_by_risk :=
    if pu_risk <=? 0 then 0
    else q * Py.max2 0 (risk_percent inp) / pu_risk in
  let rec_units :=
    if beyond_liquidation (side inp) live_price liq then 0
    else if 0 <? units_by_risk
         then (if units_by_risk <? max_by_margin
               then units_by_risk else max_by_margin)
         else max_by_margin in
  recommend_units inp live_price
    = Ok {| res_entry := e;
            res_live_price := live_price;
            res_side := side inp;
            res_leverage := l;
            res_equity_usd := q;
            res_stop_loss := stop_loss inp;
            res_risk_percent := risk_percent inp;
            res_liquidation_price := liq;
            res_margin_per_unit := mpu;
            res_max_units_by_margin := max_by_margin;
            res_per_unit_risk := pu_risk;
            res_units_by_risk := units_by_risk;
            res_recommended_units := rec_units;
            res_recommended_margin_capital := rec_units * mpu |}.
Proof.
  intros H. cbv zeta. unfold recommend_units.
  rewrite (liquidation_price_ok _ _ _ H), (margin_per_unit_ok _ _ H),
    (max_units_affordable_ok _ _ _ H), safe_units_by_risk_ok.
  cbn [bind].
  destruct (0 <? _); reflexivity.
Qed.

(** With a leverage at or below zero the first call already raises. *)
Lemma recommend_units_invalid (inp : RiskInput) (live_price : float) :
  (leverage inp <=? 0) = true ->
  recommend_units inp live_price = Raise invalid_leverage.
Proof.
  intros H. unfold recommend_units, liquidation_price. rewrite H. reflexivity.
Qed.

End Sizing.

(** * Properties of the risk engine *)



(** The sanity check fires under the condition of the override. *)
Lemma beyond_liquidation_true (s : Side) (live_price liq : float) :
  (s = Long /\ (live_price <=? liq) = true) \/
  (s = Short /\ (liq <=? live_price) = true) ->
  beyond_liquidation s live_price liq = true.
Proof.
  unfold beyond_liquidation.
  intros [[-> ->]|[-> ->]]; reflexivity.
Qed.

(** C1 -- liquidation safety override.  For a request with leverage above
    zero, when the position is long and the live price is at or below the
    liquidation price, or short and the live price is at or above it,
    [recommend_units] returns and its recommended units are [0.0],
    whatever the margin and risk caps are. *)
Theorem liquidation_override (inp : RiskInput) (live_price liq : float) :
  (0 <? leverage inp) = true ->
  liquidation_price (entry inp) (leverage inp) (side inp) = Ok liq ->
  (side inp = Long /\ (live_price <=? liq) = true) \/
  (side inp = Short /\ (liq <=? live_price) = true) ->
  exists a, recommend_units inp live_price = Ok a /\
            res_recommended_units a = 0.
Proof.
  intros Hl Hliq Hb.
  pose proof (ltb_not_geb _ _ Hl) as Hg.
  pose proof (recommend_units_ok inp live_price Hg) as Hr. cbv zeta in Hr.
  rewrite (liquidation_price_ok _ _ _ Hg) in Hliq. injection Hliq as Hliq.
  eexists. split; [exact Hr|]. cbn [res_recommended_units].
  rewrite Hliq, (beyond_liquidation_true _ _ _ Hb). reflexivity.
Qed.

(** The override at the request of scenario B and a live price of 44000,
    below the liquidation price 45000. *)
Lemma liquidation_override_witness :
  exists a, recommend_units scenario_B 44000 = Ok a /\
            res_recommended_units a = 0.
Proof.
  apply (liquidation_override scenario_B 44000 45000);
    [reflexivity | reflexivity | left; split; reflexivity].
Defined.

(** C2 -- scenario B.  Equity 10000, entry 50000, leverage 10, long, stop
    49000, risk fraction 0.02, and a live price that is not at or below the
    liquidation price 45000: the per-unit risk is 1000, the units by risk
    0.2, the units by margin 2, the recommended units 0.2 and the
    recommended margin capital 1000, each exactly, in binary64. *)
Theorem scenario_B_assessment (live_price : float) :
  (live_price <=? 45000) = false ->
  exists a, recommend_units scenario_B live_price = Ok a /\
            res_liquidation_price a = 45000 /\
            res_per_unit_risk a = 1000 /\
            res_units_by_risk a = 0.2 /\
            res_max_units_by_margin a = 2 /\
            res_recommended_units a = 0.2 /\
            res_recommended_margin_capital a = 1000.
Proof.
  intros Hlive.
  pose proof (recommend_units_ok scenario_B live_price eq_refl) as Hr.
  cbv zeta in Hr. eexists. split; [exact Hr|].
  cbn [res_liquidation_price res_per_unit_risk res_units_by_risk
       res_max_units_by_margin res_recommended_units
       res_recommended_margin_capital].
  change (beyond_liquidation (side scenario_B) live_price _)
    with (true && (live_price <=? 45000) || false && (45000 <=? live_price)).
  rewrite Hlive. repeat split; reflexivity.
Qed.

(** Scenario B at a live price of 50000. *)
Lemma scenario_B_assessment_witness :
  exists a, recommend_units scenario_B 50000 = Ok a /\
            res_liquidation_price a = 45000 /\
            res_per_unit_risk a = 1000 /\
            res_units_by_risk a = 0.2 /\
            res_max_units_by_margin a = 2 /\
            res_recommended_units a = 0.2 /\
            res_recommended_margin_capital a = 1000.
Proof.
  apply (scenario_B_assessment 50000). reflexivity.
Defined.

(** C3 -- invalid leverage.  [liquidation_price] and [margin_per_unit]
    raise exactly when [leverage <= 0], and then the exception is the
    [ValueError] of the guard; with a leverage above zero both return; and
    [recommend_units] raises exactly when [leverage <= 0], with the same
    exception. *)
Theorem invalid_leverage_iff (e l : float) (s : Side) :
  (raises (liquidation_price e l s) <-> (l <=? 0) = true) /\
  (raises (margin_per_unit e l) <-> (l <=? 0) = true) /\
  ((l <=? 0) = true ->
     liquidation_price e l s = Raise invalid_leverage /\
     margin_per_unit e l = Raise invalid_leverage) /\
  ((0 <? l) = true ->
     returns (liquidation_price e l s) /\ returns (margin_per_unit e l)) /\
  (forall (inp : RiskInput) (live_price : float),
     (raises (recommend_units inp live_price)
        <-> (leverage inp <=? 0) = true) /\
     ((leverage inp <=? 0) = true ->
        recommend_units inp live_price = Raise invalid_leverage)).
Proof.
  assert (Hraise : (l <=? 0) = true ->
            liquidation_price e l s = Raise invalid_leverage /\
            margin_per_unit e l = Raise invalid_leverage).
  { intros H. unfold liquidation_price, margin_per_unit. rewrite H.
    split; reflexivity. }
  repeat split.
  - intros [x Hx]. destruct (l <=? 0) eqn:E; [reflexivity|].
    rewrite (liquidation_price_ok e l s E) in Hx. discriminate.
  - intros H. exists invalid_leverage. apply Hraise, H.
  - intros [x Hx]. destruct (l <=? 0) eqn:E; [reflexivity|].
    rewrite (margin_per_unit_ok e l E) in Hx. discriminate.
  - intros H. exists invalid_leverage. apply Hraise, H.
  - apply Hraise, H.
  - apply Hraise, H.
  - rewrite (liquidation_price_ok e l s (ltb_not_geb _ _ H)).
    eexists. reflexivity.
  - rewrite (margin_per_unit_ok e l (ltb_not_geb _ _ H)).
    eexists. reflexivity.
  - intros [x Hx]. destruct (leverage inp <=? 0) eqn:E; [reflexivity|].
    pose proof (recommend_units_ok inp live_price E) as Hr. cbv zeta in Hr.
    rewrite Hr in Hx. discriminate.
  - intros H. exists invalid_leverage.
    apply recommend_units_invalid, H.
  - apply recommend_units_invalid.
Qed.

(** With zero equity the risk-based cap is never above zero. *)
Lemma units_by_risk_zero_equity (q r pu : float) :
  (q =? 0) = true ->
  (0 <? (if pu <=? 0 then 0 else q * Py.max2 0 r / pu)) = false.
Proof.
  intros Hq. destruct (pu <=? 0); [reflexivity|].
  apply zero_or_nan_not_pos, zero_or_nan_div, zero_or_nan_mul, Hq.
Qed.

(** C5, as stated, fails: without a stop, at a live price of 44000 below
    the liquidation price 45000, the units by margin are [2] and the
    recommended units [0]. *)
Lemma no_stop_counterexample :
  (0 <? leverage scenario_D) = true /\
  stop_loss scenario_D = None /\
  max_units_affordable (equity_usd scenario_D) (entry scenario_D)
    (leverage scenario_D) = Ok 2 /\
  exists a, recommend_units scenario_D 44000 = Ok a /\
            res_units_by_risk a = 0 /\
            res_max_units_by_margin a = 2 /\
            res_recommended_units a = 0 /\
            (res_recommended_units a =? res_max_units_by_margin a) = false.
Proof.
  repeat split. eexists. repeat split.
Qed.

(** C5, amended.  With a leverage above zero and no stop, the units by
    risk are [0.0], and the recommended units are the units by margin
    unless the live price is at or beyond the liquidation price, where they
    are [0.0]: the zero risk cap is never taken as the minimum. *)
Theorem no_stop_amended (inp : RiskInput) (live_price : float) :
  (0 <? leverage inp) = true ->
  stop_loss inp = None ->
  exists a liq max_by_margin,
    recommend_units inp live_price = Ok a /\
    liquidation_price (entry inp) (leverage inp) (side inp) = Ok liq /\
    max_units_affordable (equity_usd inp) (entry inp) (leverage inp)
      = Ok max_by_margin /\
    res_units_by_risk a = 0 /\
    res_max_units_by_margin a = max_by_margin /\
    res_recommended_units a
      = if beyond_liquidation (side inp) live_price liq then 0
        else max_by_margin.
Proof.
  intros Hl Hstop.
  pose proof (ltb_not_geb _ _ Hl) as Hg.
  pose proof (recommend_units_ok inp live_price Hg) as Hr. cbv zeta in Hr.
  unfold per_unit_risk in Hr. rewrite Hstop in Hr.
  change (0 <=? 0) with true in Hr. cbv iota in Hr.
  change (0 <? 0) with false in Hr. cbv iota in Hr.
  do 3 eexists. split; [exact Hr|].
  split; [apply liquidation_price_ok, Hg|].
  split; [apply max_units_affordable_ok, Hg|].
  repeat split.
Qed.

(** Scenario D at a live price of 50000. *)
Lemma no_stop_amended_witness :
  exists a liq max_by_margin,
    recommend_units scenario_D 50000 = Ok a /\
    liquidation_price 50000 10 Long = Ok liq /\
    max_units_affordable 10000 50000 10 = Ok max_by_margin /\
    res_units_by_risk a = 0 /\
    res_max_units_by_margin a = max_by_margin /\
    res_recommended_units a
      = if beyond_liquidation Long 50000 liq then 0 else max_by_margin.
Proof.
  apply (no_stop_amended scenario_D 50000); reflexivity.
Defined.

(** C6, as stated, fails: with a leverage of zero [max_units_affordable]
    raises instead of returning [0]; and with an entry of [-inf] at a
    leverage of [+inf] the margin per unit is NaN, the guard does not fire
    and the result is NaN. *)
Lemma max_units_counterexample :
  (0 <=? 0) = true /\
  max_units_affordable 10000 50000 0 = Raise invalid_leverage /\
  (neg_infinity <=? 0) = true /\
  (0 <? infinity) = true /\
  max_units_affordable 10000 neg_infinity infinity = Ok nan.
Proof.
  repeat split.
Qed.

(** C6, amended.  With [leverage <= 0], [max_units_affordable] raises the
    [ValueError] of the guard.  Otherwise it returns [0.0] when the margin
    per unit [entry / leverage] is at or below zero, and the equity divided
    by the margin per unit when not; with a leverage above zero and a
    finite entry at or below zero it returns [0.0]. *)
Theorem max_units_affordable_amended (q e l : float) :
  ((l <=? 0) = true -> max_units_affordable q e l = Raise invalid_leverage) /\
  ((l <=? 0) = false ->
     margin_per_unit e l = Ok (e / l) /\
     max_units_affordable q e l
       = Ok (if e / l <=? 0 then 0 else q / (e / l))) /\
  ((0 <? l) = true -> is_finite e = true -> (e <=? 0) = true ->
     max_units_affordable q e l = Ok 0).
Proof.
  split; [|split].
  - intros H. unfold max_units_affordable, margin_per_unit. rewrite H.
    reflexivity.
  - intros H. split; [apply margin_per_unit_ok, H|].
    apply max_units_affordable_ok, H.
  - intros Hl Hf He.
    rewrite (max_units_affordable_ok q e l (ltb_not_geb _ _ Hl)).
    rewrite (div_nonpos e l Hf He Hl). reflexivity.
Qed.

(** C7, as stated, fails in binary64: at a leverage of 1e17 the quotient
    [1.0 / leverage] is absorbed when it is subtracted from or added to
    [1], and both liquidation prices of an entry at 50000 equal the
    entry; at a leverage of [2^53] the sum [1 + 1.0 / leverage] already
    rounds to [1] and the short liquidation price equals the entry.  For
    the smallest subnormal entry [2^-1074] at a leverage of 4 both
    products round back to the entry.  With an entry of [+inf] at a
    leverage of 1 the long liquidation price is [inf * 0.0], which is NaN
    and compares with nothing. *)
Lemma liquidation_ordering_counterexample :
  ((0 <? 1e17) = true /\
   (0 <? 50000) = true /\
   liquidation_price 50000 1e17 Long = Ok 50000 /\
   liquidation_price 50000 1e17 Short = Ok 50000 /\
   (50000 <? 50000) = false) /\
  ((0 <? 1) = true /\
   (0 <? infinity) = true /\
   liquidation_price infinity 1 Long = Ok nan /\
   (nan <? infinity) = false /\
   (nan <=? infinity) = false) /\
  ((0 <? 9007199254740992) = true /\
   liquidation_price 50000 9007199254740992 Short = Ok 50000) /\
  ((0 <? 4) = true /\
   (0 <? 0x1p-1074) = true /\
   liquidation_price 0x1p-1074 4 Long = Ok 0x1p-1074 /\
   liquidation_price 0x1p-1074 4 Short = Ok 0x1p-1074 /\
   (0x1p-1074 <? 0x1p-1074) = false).
Proof.
  repeat split.
Qed.

(** C8 -- per-unit risk clamp.  For every entry, side and optional stop
    the per-unit risk is at or above zero, and without a stop it is
    [0.0]. *)
Theorem per_unit_risk_clamp (e : float) (stop : option float) (s : Side) :
  (0 <=? per_unit_risk e stop s) = true /\
  per_unit_risk e None s = 0.
Proof.
  split; [|reflexivity].
  assert (Hmax : forall x, (0 <=? Py.max2 0 x) = true).
  { intros x. unfold Py.max2.
    destruct (0 <? x) eqn:E; [apply ltb_leb, E|reflexivity]. }
  unfold per_unit_risk.
  destruct stop as [st|]; [|reflexivity].
  destruct (Side_eqb s Long); apply Hmax.
Qed.

(** C10 -- live-price frame.  For a request with leverage above zero and
    two live prices, both calls return, and the results agree on the six
    echoed inputs and on the liquidation price, the margin per unit, the
    units by margin, the per-unit risk and the units by risk; each echoes
    its own live price. *)
Theorem live_price_frame (inp : RiskInput) (p1 p2 : float) :
  (0 <? leverage inp) = true ->
  exists a1 a2,
    recommend_units inp p1 = Ok a1 /\
    recommend_units inp p2 = Ok a2 /\
    res_live_price a1 = p1 /\
    res_live_price a2 = p2 /\
    res_entry a1 = res_entry a2 /\
    res_side a1 = res_side a2 /\
    res_leverage a1 = res_leverage a2 /\
    res_equity_usd a1 = res_equity_usd a2 /\
    res_stop_loss a1 = res_stop_loss a2 /\
    res_risk_percent a1 = res_risk_percent a2 /\
    res_liquidation_price a1 = res_liquidation_price a2 /\
    res_margin_per_unit a1 = res_margin_per_unit a2 /\
    res_max_units_by_margin a1 = res_max_units_by_margin a2 /\
    res_per_unit_risk a1 = res_per_unit_risk a2 /\
    res_units_by_risk a1 = res_units_by_risk a2.
Proof.
  intros Hl.
  pose proof (ltb_not_geb _ _ Hl) as Hg.
  pose proof (recommend_units_ok inp p1 Hg) as H1.
  pose proof (recommend_units_ok inp p2 Hg) as H2.
  cbv zeta in H1, H2.
  do 2 eexists. split; [exact H1|]. split; [exact H2|].
  repeat split.
Qed.

(** Scenario B at the live prices 50000 and 44000. *)
Lemma live_price_frame_witness :
  exists a1 a2,
    recommend_units scenario_B 50000 = Ok a1 /\
    recommend_units scenario_B 44000 = Ok a2 /\
    res_live_price a1 = 50000 /\
    res_live_price a2 = 44000 /\
    res_entry a1 = res_entry a2 /\
    res_side a1 = res_side a2 /\
    res_leverage a1 = res_leverage a2 /\
    res_equity_usd a1 = res_equity_usd a2 /\
    res_stop_loss a1 = res_stop_loss a2 /\
    res_risk_percent a1 = res_risk_percent a2 /\
    res_liquidation_price a1 = res_liquidation_price a2 /\
    res_margin_per_unit a1 = res_margin_per_unit a2 /\
    res_max_units_by_margin a1 = res_max_units_by_margin a2 /\
    res_per_unit_risk a1 = res_per_unit_risk a2 /\
    res_units_by_risk a1 = res_units_by_risk a2.
Proof.
  apply (live_price_frame scenario_B 50000 44000). reflexivity.
Defined.

(** * Further facts about binary64 *)

Section MoreOperations.
Local Open Scope Z_scope.
Local Open Scope float_scope.

(** A float that is not NaN compares equal to itself. *)
Lemma SFcompare_refl (x : spec_float) :
  x <> S754_nan -> SFcompare x x = Some Eq.
Proof.
  destruct x as [s|[]| |[] m e]; simpl; intros H; try congruence;
    rewrite Z.compare_refl;
    change (Pos.compare_cont Eq m m) with (Pos.compare m m);
    rewrite Pos.compare_refl; reflexivity.
Qed.

(** Two floats that are not NaN always compare. *)
Lemma SFcompare_some (x y : spec_float) :
  x <> S754_nan -> y <> S754_nan -> exists c, SFcompare x y = Some c.
Proof.
  destruct x as [sx|sx| |sx mx ex], y as [sy|sy| |sy my ey]; simpl;
    intros Hx Hy; try congruence; eauto.
Qed.

(** A float that compares with something is not NaN. *)
Lemma leb_not_nan_r (x y : float) :
  (x <=? y) = true -> Prim2SF y <> S754_nan.
Proof.
  rewrite leb_spec. unfold SFleb. intros H E. rewrite E in H.
  destruct (Prim2SF x); discriminate.
Qed.

(** The same for the left-hand side. *)
Lemma leb_not_nan_l (x y : float) :
  (x <=? y) = true -> Prim2SF x <> S754_nan.
Proof.
  rewrite leb_spec. unfold SFleb. intros H E. rewrite E in H.
  discriminate.
Qed.

(** A float equal to itself is not NaN. *)
Lemma eqb_self_not_nan (x : float) :
  (x =? x) = true -> Prim2SF x <> S754_nan.
Proof.
  rewrite eqb_spec. unfold SFeqb. intros H E. rewrite E in H. discriminate.
Qed.

(** [x <= x] for every float but NaN. *)
Lemma leb_refl (x : float) : Prim2SF x <> S754_nan -> (x <=? x) = true.
Proof.
  intros H. rewrite leb_spec. unfold SFleb.
  rewrite (SFcompare_refl _ H). reflexivity.
Qed.

(** Floats that are not NaN are totally ordered. *)
Lemma ltb_false_geb (x y : float) :
  Prim2SF x <> S754_nan -> Prim2SF y <> S754_nan ->
  (x <? y) = false -> (y <=? x) = true.
Proof.
  intros Hx Hy. rewrite ltb_spec, leb_spec. unfold SFltb, SFleb.
  rewrite (SFcompare_antisym (Prim2SF x) (Prim2SF y)).
  destruct (SFcompare_some _ _ Hx Hy) as (c & ->).
  destruct c; simpl; congruence.
Qed.

(** [<=] is transitive. *)
Lemma SFleb_trans (x y z : spec_float) :
  SFleb x y = true -> SFleb y z = true -> SFleb x z = true.
Proof.
  unfold SFleb.
  destruct x as [sx|sx| |sx mx ex], y as [sy|sy| |sy my ey],
           z as [sz|sz| |sz mz ez]; simpl; try discriminate; try reflexivity;
    try (destruct sx; try discriminate; try reflexivity);
    try (destruct sy; try discriminate; try reflexivity);
    try (destruct sz; try discriminate; try reflexivity).
  all: change (Pos.compare_cont Eq) with Pos.compare.
  all: destruct (Z.compare_spec ex ey), (Z.compare_spec ey ez),
         (Z.compare_spec ex ez); try discriminate; try reflexivity; try lia.
  all: subst;
       destruct (Pos.compare_spec mx my), (Pos.compare_spec my mz),
         (Pos.compare_spec mx mz); simpl; try discriminate; try reflexivity;
         try lia.
Qed.

(** Strict comparison of two scaled integers at the smaller exponent. *)
Lemma F2Q_lt_l (m m' e e' : Z) :
  (e <= e')%Z -> (F2Q m e < F2Q m' e')%Q <-> (m < m' * 2 ^ (e' - e))%Z.
Proof.
  intros He. rewrite <- (F2Q_lt_same m (m' * 2 ^ (e' - e)) e).
  rewrite F2Q_shift by lia. replace (e + (e' - e))%Z with e' by lia.
  reflexivity.
Qed.

(** For two valid positive numbers the larger exponent decides. *)
Lemma valid_exponent_lt (mx my : positive) (ex ey : Z) :
  bounded prec emax mx ex = true -> bounded prec emax my ey = true ->
  (ex < ey)%Z -> (Z.pos mx < Z.pos my * 2 ^ (ey - ex))%Z.
Proof.
  intros Vx Vy Hlt.
  destruct (bounded_spec _ _ Vx) as [Cx _], (bounded_spec _ _ Vy) as [Cy _].
  apply F2Q_lt_l; [lia|].
  apply F2Q_lt_digits; [lia|lia|].
  rewrite !fexp64_eq in *. simpl Zdigits2 in *. lia.
Qed.

(** The comparison of two valid finite numbers is the comparison of
    their signed mantissas at the smaller exponent. *)
Lemma SFcompare_finite (sx sy : bool) (mx my : positive) (ex ey : Z) :
  bounded prec emax mx ex = true -> bounded prec emax my ey = true ->
  SFcompare (S754_finite sx mx ex) (S754_finite sy my ey)
    = Some (Z.compare
              (cond_Zopp sx (Z.pos mx * 2 ^ (ex - Z.min ex ey)))
              (cond_Zopp sy (Z.pos my * 2 ^ (ey - Z.min ex ey)))).
Proof.
  intros Vx Vy.
  assert (Hpos : (match Z.compare ex ey with
                  | Lt => Lt | Gt => Gt
                  | Eq => Pos.compare_cont Eq mx my
                  end)
                 = Z.compare (Z.pos mx * 2 ^ (ex - Z.min ex ey))
                             (Z.pos my * 2 ^ (ey - Z.min ex ey))).
  { destruct (Z.compare_spec ex ey) as [E|L|G].
    - subst ey. rewrite Z.min_id, Z.sub_diag. simpl Z.pow.
      rewrite !Z.mul_1_r. reflexivity.
    - replace (Z.min ex ey) with ex by lia. rewrite Z.sub_diag.
      simpl (2 ^ 0)%Z. rewrite Z.mul_1_r. symmetry. apply Z.compare_lt_iff.
      apply valid_exponent_lt; assumption.
    - replace (Z.min ex ey) with ey by lia. rewrite Z.sub_diag.
      simpl (2 ^ 0)%Z. rewrite Z.mul_1_r. symmetry. apply Z.compare_gt_iff.
      apply valid_exponent_lt; assumption. }
  set (a := (Z.pos mx * 2 ^ (ex - Z.min ex ey))%Z) in *.
  set (b := (Z.pos my * 2 ^ (ey - Z.min ex ey))%Z) in *.
  assert (Ha : (0 < a)%Z).
  { unfold a. apply Z.mul_pos_pos; [lia|apply Z.pow_pos_nonneg; lia]. }
  assert (Hb : (0 < b)%Z).
  { unfold b. apply Z.mul_pos_pos; [lia|apply Z.pow_pos_nonneg; lia]. }
  unfold SFcompare, cond_Zopp. destruct sx, sy.
  - transitivity (Some (CompOpp (Z.compare a b))).
    + rewrite <- Hpos. destruct (ex ?= ey)%Z; reflexivity.
    + f_equal. rewrite Z.compare_opp. symmetry. apply Z.compare_antisym.
  - f_equal. symmetry. apply Z.compare_lt_iff. lia.
  - f_equal. symmetry. apply Z.compare_gt_iff. lia.
  - rewrite Hpos. reflexivity.
Qed.

(** A non-zero integer multiple of the exponent of the format does not
    round to zero. *)
Lemma binary_normalize_sign (d ez : Z) :
  (-1074 <= ez)%Z ->
  SFltb (S754_zero false) (binary_normalize prec emax d ez false)
    = (0 <? d)%Z.
Proof.
  intros He. destruct d as [|p|p]; cbn [binary_normalize].
  - reflexivity.
  - destruct (binary_round_spec false p ez) as (mz & ez' & -> & Hv & _).
    destruct (binary_round_aux_lower false (Z.pos mz) ez' 1 (-1074)
                ltac:(lia) eq_refl) as [-> | (m3 & e3 & -> & _)].
    + rewrite Hv. apply F2Q_le_l; [assumption|].
      assert (0 < 2 ^ (ez - -1074))%Z by (apply Z.pow_pos_nonneg; lia).
      nia.
    + reflexivity.
    + reflexivity.
  - pose proof (binary_round_signed true p ez) as Hs.
    destruct (binary_round prec emax true p ez) as [s|s| |s m e];
      simpl in Hs; try contradiction; subst; reflexivity.
Qed.

(** [x - y] is above zero exactly when [y < x]: a difference never
    underflows to zero. *)
Lemma sub_pos_iff (x y : float) : (0 <? x - y) = (y <? x).
Proof.
  rewrite !ltb_spec, sub_spec, Prim2SF_zero.
  pose proof (Prim2SF_valid x) as Vx. pose proof (Prim2SF_valid y) as Vy.
  destruct (Prim2SF x) as [sx|sx| |sx mx ex],
           (Prim2SF y) as [sy|sy| |sy my ey];
    try (destruct sx; reflexivity); try (destruct sy; reflexivity);
    try (destruct sx, sy; reflexivity); try reflexivity.
  simpl in Vx, Vy.
  unfold SF64sub, SFsub, SFltb at 2.
  rewrite (SFcompare_finite sy sx my mx ey ex Vy Vx).
  destruct (bounded_spec _ _ Vx) as [Cx _], (bounded_spec _ _ Vy) as [Cy _].
  set (ez := Z.min ex ey).
  destruct (shl_align_le mx ex ez ltac:(unfold ez; lia)) as (a & -> & Ha).
  destruct (shl_align_le my ey ez ltac:(unfold ez; lia)) as (b & -> & Hb).
  cbn [fst]. rewrite binary_normalize_sign
    by (unfold ez; rewrite !fexp64_eq in *; lia).
  rewrite Ha, Hb. rewrite (Z.min_comm ey ex). fold ez.
  set (u := cond_Zopp sx _). set (v := cond_Zopp sy _).
  destruct (Z.compare_spec v u); destruct (Z.ltb_spec 0 (u - v));
    try reflexivity; lia.
Qed.

(** A valid mantissa with 52 more low zero bits rounds back to itself. *)
Lemma binary_round_aux_shifted (s : bool) (m : positive) (e : Z) :
  bounded prec emax m e = true ->
  binary_round_aux prec emax s (Z.pos (m * 4503599627370496)) (e + -52)
    loc_Exact = S754_finite s m e.
Proof.
  intros V. destruct (bounded_spec _ _ V) as [C E].
  destruct (binary_round_aux_spec s (Z.pos (m * 4503599627370496)) (e + -52)
              ltac:(lia)) as (m2 & Hm2 & Hex & ->).
  cbv zeta in *.
  assert (Hd : Zdigits2 (Z.pos (m * 4503599627370496))
               = (Zdigits2 (Z.pos m) + 52)%Z).
  { rewrite Pos2Z.inj_mul. change (Z.pos 4503599627370496) with (2 ^ 52)%Z.
    apply Zdigits2_mul_pow2; lia. }
  rewrite Hd in *.
  replace (Zdigits2 (Z.pos m) + 52 + (e + -52))%Z
    with (Zdigits2 (Z.pos m) + e)%Z in * by lia.
  rewrite C in *.
  replace (Z.max (e + -52) e) with e in * by lia.
  replace (e - (e + -52))%Z with 52%Z in * by lia.
  assert (Hdiv : (Z.pos (m * 4503599627370496) / 2 ^ 52 = Z.pos m)%Z).
  { rewrite Pos2Z.inj_mul. change (Z.pos 4503599627370496) with (2 ^ 52)%Z.
    apply Z.div_mul. lia. }
  assert (Hmod : (Z.pos (m * 4503599627370496) mod 2 ^ 52 = 0)%Z).
  { rewrite Pos2Z.inj_mul. change (Z.pos 4503599627370496) with (2 ^ 52)%Z.
    apply Z.mod_mul. lia. }
  rewrite Hdiv in *. rewrite (Hex Hmod), C.
  rewrite Z.max_id, Z.sub_diag, Z.div_1_r.
  replace (e <=? emax - prec)%Z with true; [reflexivity|].
  symmetry. apply Z.leb_le. exact E.
Qed.

(** Multiplication by [1.0] changes no float. *)
Lemma mul_one_r (x : float) : x * 1 = x.
Proof.
  apply Prim2SF_inj. rewrite mul_spec, Prim2SF_one.
  pose proof (Prim2SF_valid x) as V.
  destruct (Prim2SF x) as [s|s| |s m e]; try (destruct s; reflexivity);
    try reflexivity.
  unfold SF64mul, SFmul. rewrite xorb_false_r.
  apply binary_round_aux_shifted. exact V.
Qed.

(** A float that is not below zero: NaN, a zero, or positive. *)
Lemma not_neg_shape (x : float) :
  (x <? 0) = false ->
  Prim2SF x = S754_nan \/ (exists s, Prim2SF x = S754_zero s) \/
  Prim2SF x = S754_infinity false \/
  exists m e, Prim2SF x = S754_finite false m e.
Proof.
  rewrite ltb_spec, Prim2SF_zero. unfold SFltb, SFcompare.
  destruct (Prim2SF x) as [s|[]| |[] m e]; try discriminate; eauto 6.
Qed.

(** A float with a clear sign bit that is not NaN is not below zero. *)
Lemma signed_false_not_neg (x : float) :
  SFsigned false (Prim2SF x) -> (x <? 0) = false.
Proof.
  rewrite ltb_spec, Prim2SF_zero. unfold SFltb, SFcompare.
  destruct (Prim2SF x) as [s|s| |s m e]; simpl; intros H;
    try contradiction; subst; reflexivity.
Qed.

(** A float that is not at or below zero: NaN or positive. *)
Lemma not_nonpos_shape (x : float) :
  (x <=? 0) = false ->
  Prim2SF x = S754_nan \/ Prim2SF x = S754_infinity false \/
  exists m e, Prim2SF x = S754_finite false m e.
Proof.
  rewrite leb_spec, Prim2SF_zero. unfold SFleb, SFcompare.
  destruct (Prim2SF x) as [s|[]| |[] m e]; try discriminate; eauto 6.
Qed.

(** The product of two floats that are not below zero is not below
    zero. *)
Lemma mul_not_neg (x y : float) :
  (x <? 0) = false -> (y <? 0) = false -> (x * y <? 0) = false.
Proof.
  intros Hx Hy.
  destruct (not_neg_shape x Hx) as [Ex|[(sx & Ex)|[Ex|(mx & ex & Ex)]]];
  destruct (not_neg_shape y Hy) as [Ey|[(sy & Ey)|[Ey|(my & ey & Ey)]]];
    try (rewrite ltb_spec, mul_spec, Ex, Ey, Prim2SF_zero;
         try destruct sx; try destruct sy; reflexivity).
  apply signed_false_not_neg. rewrite mul_spec, Ex, Ey.
  apply (binary_round_aux_signed false). lia.
Qed.

(** A float that is not below zero divided by one that is not at or
    below zero is not below zero. *)
Lemma div_not_neg (x y : float) :
  (x <? 0) = false -> (y <=? 0) = false -> (x / y <? 0) = false.
Proof.
  intros Hx Hy.
  destruct (not_neg_shape x Hx) as [Ex|[(sx & Ex)|[Ex|(mx & ex & Ex)]]];
  destruct (not_nonpos_shape y Hy) as [Ey|[Ey|(my & ey & Ey)]];
    try (rewrite ltb_spec, div_spec, Ex, Ey, Prim2SF_zero;
         try destruct sx; reflexivity).
  apply signed_false_not_neg. rewrite div_spec, Ex, Ey.
  change false with (xorb false false). apply SFdiv_signed; eauto.
Qed.

(** [max(0.0, x)] is not below zero. *)
Lemma max2_zero_not_neg (x : float) : (Py.max2 0 x <? 0) = false.
Proof.
  unfold Py.max2. destruct (0 <? x) eqn:E; [|reflexivity].
  apply ltb_asym, E.
Qed.

End MoreOperations.

(** * Further properties of the risk engine *)

Section Engine.
Local Open Scope float_scope.

(** X1 -- the guard of [safe_units_by_risk].  The function never raises:
    its division is only reached with a per-unit risk that is not zero;
    with a per-unit risk at or below zero (no stop, a misplaced stop) the
    result is [0.0]. *)
Theorem safe_units_by_risk_guard (q r pu : float) :
  returns (safe_units_by_risk q r pu) /\
  ((pu <=? 0) = true -> safe_units_by_risk q r pu = Ok 0).
Proof.
  rewrite safe_units_by_risk_ok. split.
  - eexists. reflexivity.
  - intros ->. reflexivity.
Qed.

(** The value [safe_units_by_risk] returns is not below zero when the
    equity is not. *)
Lemma units_by_risk_not_negative (q r pu : float) :
  (q <? 0) = false ->
  ((if pu <=? 0 then 0 else q * Py.max2 0 r / pu) <? 0) = false.
Proof.
  intros Hq. destruct (pu <=? 0) eqn:E; [reflexivity|].
  apply div_not_neg; [|exact E].
  apply mul_not_neg; [exact Hq|apply max2_zero_not_neg].
Qed.

(** X2 -- with an equity that is not negative, the units allowed by risk
    are not negative, whatever the risk fraction and the per-unit risk. *)
Theorem safe_units_by_risk_not_negative (q r pu : float) :
  (q <? 0) = false ->
  exists u, safe_units_by_risk q r pu = Ok u /\ (u <? 0) = false.
Proof.
  intros Hq. rewrite safe_units_by_risk_ok. eexists. split; [reflexivity|].
  apply units_by_risk_not_negative, Hq.
Qed.

(** The units by risk of a request with zero equity and any per-unit risk
    above zero. *)
Lemma safe_units_by_risk_not_negative_witness :
  exists u, safe_units_by_risk 0 0.02 1000 = Ok u /\ (u <? 0) = false.
Proof.
  apply (safe_units_by_risk_not_negative 0 0.02 1000). reflexivity.
Defined.

(** A stop that is not on the loss side of the entry gives a per-unit
    risk of [0.0]. *)
Lemma per_unit_risk_misplaced (e st : float) (s : Side) :
  (s = Long /\ (st <? e) = false) \/ (s = Short /\ (e <? st) = false) ->
  per_unit_risk e (Some st) s = 0.
Proof.
  unfold per_unit_risk, Py.max2.
  intros [[-> H]|[-> H]]; cbn [Side_eqb]; rewrite sub_pos_iff, H;
    reflexivity.
Qed.

(** X3 -- the sign of the per-unit risk.  With a stop, the per-unit risk
    of a long position is above zero exactly when the stop is below the
    entry, and that of a short position exactly when the stop is above the
    entry: the difference of two distinct floats never rounds to zero.  In
    every other case (stop on the wrong side, at the entry, or NaN) it is
    exactly [0.0]. *)
Theorem per_unit_risk_sign (e st : float) :
  (0 <? per_unit_risk e (Some st) Long) = (st <? e) /\
  (0 <? per_unit_risk e (Some st) Short) = (e <? st) /\
  ((st <? e) = false -> per_unit_risk e (Some st) Long = 0) /\
  ((e <? st) = false -> per_unit_risk e (Some st) Short = 0).
Proof.
  unfold per_unit_risk, Py.max2. cbn [Side_eqb].
  rewrite (sub_pos_iff e st), (sub_pos_iff st e).
  repeat split.
  - destruct (st <? e) eqn:E; [|reflexivity].
    rewrite sub_pos_iff. exact E.
  - destruct (e <? st) eqn:E; [|reflexivity].
    rewrite sub_pos_iff. exact E.
  - intros ->. reflexivity.
  - intros ->. reflexivity.
Qed.

(** The per-unit risk is [0.0] or above zero; it is never NaN. *)
Lemma per_unit_risk_number (e : float) (stop : option float) (s : Side) :
  per_unit_risk e stop s = 0 \/ (0 <? per_unit_risk e stop s) = true.
Proof.
  unfold per_unit_risk, Py.max2.
  destruct stop as [st|]; [|left; reflexivity].
  destruct (Side_eqb s Long).
  - destruct (0 <? e - st) eqn:E; [right; exact E|left; reflexivity].
  - destruct (0 <? st - e) eqn:E; [right; exact E|left; reflexivity].
Qed.

(** X4 -- a misplaced stop falls back to sizing by margin.  With a
    leverage above zero and a stop that is not below the entry of a long
    position (not above the entry of a short one), the per-unit risk and
    the units by risk are [0.0], and the recommended units are the units by
    margin, or [0.0] when the live price is at or beyond the liquidation
    price. *)
Theorem misplaced_stop_margin_only
  (inp : RiskInput) (live_price st : float) :
  (0 <? leverage inp) = true ->
  stop_loss inp = Some st ->
  (side inp = Long /\ (st <? entry inp) = false) \/
  (side inp = Short /\ (entry inp <? st) = false) ->
  exists a,
    recommend_units inp live_price = Ok a /\
    res_per_unit_risk a = 0 /\
    res_units_by_risk a = 0 /\
    res_recommended_units a
      = if beyond_liquidation (side inp) live_price (res_liquidation_price a)
        then 0 else res_max_units_by_margin a.
Proof.
  intros Hl Hstop Hside.
  pose proof (ltb_not_geb _ _ Hl) as Hg.
  pose proof (recommend_units_ok inp live_price Hg) as Hr. cbv zeta in Hr.
  assert (Hpu : per_unit_risk (entry inp) (stop_loss inp) (side inp) = 0).
  { rewrite Hstop. apply per_unit_risk_misplaced, Hside. }
  rewrite Hpu in Hr.
  change (0 <=? 0) with true in Hr. cbv iota in Hr.
  change (0 <? 0) with false in Hr. cbv iota in Hr.
  eexists. split; [exact Hr|]. repeat split.
Qed.

(** The request with the stop of a long position above its entry. *)
Lemma misplaced_stop_margin_only_witness :
  exists a,
    recommend_units misplaced_stop 50000 = Ok a /\
    res_per_unit_risk a = 0 /\
    res_units_by_risk a = 0 /\
    res_recommended_units a
      = if beyond_liquidation Long 50000 (res_liquidation_price a)
        then 0 else res_max_units_by_margin a.
Proof.
  apply (misplaced_stop_margin_only misplaced_stop 50000 51000);
    [reflexivity | reflexivity | left; split; reflexivity].
Defined.

(** A finite float times [0.0] is a zero. *)
Lemma finite_mul_zero (q : float) :
  is_finite q = true -> (q * 0 =? 0) = true.
Proof.
  intros Hf. rewrite eqb_spec, mul_spec, !Prim2SF_zero.
  destruct (finite_shape q Hf) as [(s & ->)|(s & m & e & ->)];
    destruct s; reflexivity.
Qed.

(** A float equal to zero is not above zero. *)
Lemma eqb_zero_not_pos (x : float) : (x =? 0) = true -> (0 <? x) = false.
Proof.
  intros H. apply zero_or_nan_not_pos. right. apply zero_shape, H.
Qed.

(** X5 -- a risk fraction that is not above zero.  With a leverage above
    zero and a finite equity, a risk fraction that is zero, negative or
    NaN is clamped to a zero budget: the units by risk equal zero, and the
    recommended units are the units by margin, or [0.0] when the live price
    is at or beyond the liquidation price. *)
Theorem risk_fraction_clamp (inp : RiskInput) (live_price : float) :
  (0 <? leverage inp) = true ->
  is_finite (equity_usd inp) = true ->
  (0 <? risk_percent inp) = false ->
  exists a,
    recommend_units inp live_price = Ok a /\
    (res_units_by_risk a =? 0) = true /\
    res_recommended_units a
      = if beyond_liquidation (side inp) live_price (res_liquidation_price a)
        then 0 else res_max_units_by_margin a.
Proof.
  intros Hl Hf Hr0.
  pose proof (ltb_not_geb _ _ Hl) as Hg.
  pose proof (recommend_units_ok inp live_price Hg) as Hr. cbv zeta in Hr.
  eexists. split; [exact Hr|].
  cbn [res_units_by_risk res_recommended_units res_liquidation_price
       res_max_units_by_margin].
  set (pu := per_unit_risk (entry inp) (stop_loss inp) (side inp)).
  assert (Hu : ((if pu <=? 0 then 0
                 else equity_usd inp * Py.max2 0 (risk_percent inp) / pu)
                =? 0) = true).
  { destruct (pu <=? 0) eqn:E; [reflexivity|].
    unfold Py.max2. rewrite Hr0.
    destruct (per_unit_risk_number (entry inp) (stop_loss inp) (side inp))
      as [H0|Hp]; fold pu in H0 || fold pu in Hp.
    - rewrite H0 in E. discriminate E.
    - apply (div_zero_num _ _ false (finite_mul_zero _ Hf)); [|exact E].
      destruct (pos_shape pu Hp) as [(m & e & ->)| ->]; reflexivity. }
  split; [exact Hu|].
  rewrite (eqb_zero_not_pos _ Hu). reflexivity.
Qed.

(** The worked example with a risk fraction of zero. *)
Lemma risk_fraction_clamp_witness :
  exists a,
    recommend_units
      {| equity_usd := 10000; entry := 50000; leverage := 10; side := Long;
         stop_loss := Some 49000; risk_percent := 0 |} 50000 = Ok a /\
    (res_units_by_risk a =? 0) = true /\
    res_recommended_units a
      = if beyond_liquidation Long 50000 (res_liquidation_price a)
        then 0 else res_max_units_by_margin a.
Proof.
  apply (risk_fraction_clamp
           {| equity_usd := 10000; entry := 50000; leverage := 10;
              side := Long; stop_loss := Some 49000; risk_percent := 0 |}
           50000); reflexivity.
Defined.

(** X6 -- the recommendation stays within both caps.  With a leverage
    above zero, the recommended units are at most the units by margin when
    these are at or above zero, and at most the units by risk when these
    are above zero and the units by margin are a number. *)
Theorem recommended_within_caps (inp : RiskInput) (live_price : float) :
  (0 <? leverage inp) = true ->
  exists a,
    recommend_units inp live_price = Ok a /\
    ((0 <=? res_max_units_by_margin a) = true ->
     (res_recommended_units a <=? res_max_units_by_margin a) = true) /\
    ((0 <? res_units_by_risk a) = true ->
     (res_max_units_by_margin a =? res_max_units_by_margin a) = true ->
     (res_recommended_units a <=? res_units_by_risk a) = true).
Proof.
  intros Hl.
  pose proof (ltb_not_geb _ _ Hl) as Hg.
  pose proof (recommend_units_ok inp live_price Hg) as Hr. cbv zeta in Hr.
  eexists. split; [exact Hr|].
  cbn [res_units_by_risk res_recommended_units res_max_units_by_margin].
  set (mbm := if entry inp / leverage inp <=? 0 then 0 else _).
  set (ubr := if per_unit_risk _ _ _ <=? 0 then 0 else _).
  split.
  - intros Hm. destruct (beyond_liquidation _ _ _); [exact Hm|].
    destruct (0 <? ubr); [destruct (ubr <? mbm) eqn:E|].
    + apply ltb_leb, E.
    + apply leb_refl, (leb_not_nan_r _ _ Hm).
    + apply leb_refl, (leb_not_nan_r _ _ Hm).
  - intros Hu Hm. rewrite Hu.
    pose proof (leb_not_nan_r _ _ (ltb_leb _ _ Hu)) as Nu.
    destruct (beyond_liquidation _ _ _); [apply ltb_leb, Hu|].
    destruct (ubr <? mbm) eqn:E; [apply leb_refl, Nu|].
    apply ltb_false_geb; [exact Nu|apply eqb_self_not_nan, Hm|exact E].
Qed.

(** The worked example: [0.2 <= 2] and [0.2 <= 0.2]. *)
Lemma recommended_within_caps_witness :
  exists a,
    recommend_units scenario_B 50000 = Ok a /\
    (res_recommended_units a <=? res_max_units_by_margin a) = true /\
    (res_recommended_units a <=? res_units_by_risk a) = true.
Proof.
  destruct (recommended_within_caps scenario_B 50000 eq_refl)
    as (a & Ha & Hm & Hu).
  exists a. split; [exact Ha|].
  injection Ha as <-.
  split; [apply Hm|apply Hu]; reflexivity.
Defined.

(** X7 -- no negative recommendation.  With a leverage above zero and an
    equity that is not negative, none of the units by margin, the units by
    risk and the recommended units is negative; with an entry that is not
    negative either, nor is the recommended margin capital. *)
Theorem recommended_not_negative (inp : RiskInput) (live_price : float) :
  (0 <? leverage inp) = true ->
  (equity_usd inp <? 0) = false ->
  exists a,
    recommend_units inp live_price = Ok a /\
    (res_max_units_by_margin a <? 0) = false /\
    (res_units_by_risk a <? 0) = false /\
    (res_recommended_units a <? 0) = false /\
    ((entry inp <? 0) = false ->
     (res_recommended_margin_capital a <? 0) = false).
Proof.
  intros Hl Hq.
  pose proof (ltb_not_geb _ _ Hl) as Hg.
  pose proof (recommend_units_ok inp live_price Hg) as Hr. cbv zeta in Hr.
  eexists. split; [exact Hr|].
  cbn [res_units_by_risk res_recommended_units res_max_units_by_margin
       res_recommended_margin_capital].
  set (mbm := if entry inp / leverage inp <=? 0 then 0 else _).
  set (ubr := if per_unit_risk _ _ _ <=? 0 then 0 else _).
  assert (Hm : (mbm <? 0) = false).
  { unfold mbm. destruct (entry inp / leverage inp <=? 0) eqn:E;
      [reflexivity|apply div_not_neg; assumption]. }
  assert (Hu : (ubr <? 0) = false).
  { apply units_by_risk_not_negative, Hq. }
  set (rec := if beyond_liquidation _ _ _ then 0 else _).
  assert (Hrec : (rec <? 0) = false).
  { unfold rec. destruct (beyond_liquidation _ _ _); [reflexivity|].
    destruct (0 <? ubr); [destruct (ubr <? mbm)|]; assumption. }
  repeat split; try assumption.
  intros He. apply mul_not_neg; [exact Hrec|].
  apply div_not_neg; assumption.
Qed.

(** The worked example. *)
Lemma recommended_not_negative_witness :
  exists a,
    recommend_units scenario_B 50000 = Ok a /\
    (res_max_units_by_margin a <? 0) = false /\
    (res_units_by_risk a <? 0) = false /\
    (res_recommended_units a <? 0) = false /\
    ((entry scenario_B <? 0) = false ->
     (res_recommended_margin_capital a <? 0) = false).
Proof.
  apply (recommended_not_negative scenario_B 50000); reflexivity.
Defined.

(** Once the sanity check fires it fires for every live price further
    beyond the liquidation price. *)
Lemma beyond_liquidation_monotone (s : Side) (p p' liq : float) :
  (s = Long /\ (p' <=? p) = true) \/ (s = Short /\ (p <=? p') = true) ->
  beyond_liquidation s p liq = true ->
  beyond_liquidation s p' liq = true.
Proof.
  unfold beyond_liquidation.
  intros [[-> H]|[-> H]]; cbn [Side_eqb andb orb]; intros Hb.
  - rewrite orb_false_r in *. rewrite leb_spec in *.
    apply (SFleb_trans _ _ _ H Hb).
  - rewrite leb_spec in *. apply (SFleb_trans _ _ _ Hb H).
Qed.

(** X8 -- the override is monotone in the live price.  With a leverage
    above zero, if the recommendation of a long position is zeroed by the
    override at some live price, it is zeroed at every lower live price;
    for a short position, at every higher one. *)
Theorem override_monotone (inp : RiskInput) (p p' liq : float) :
  (0 <? leverage inp) = true ->
  liquidation_price (entry inp) (leverage inp) (side inp) = Ok liq ->
  (side inp = Long /\ (p' <=? p) = true) \/
  (side inp = Short /\ (p <=? p') = true) ->
  beyond_liquidation (side inp) p liq = true ->
  exists a a',
    recommend_units inp p = Ok a /\
    recommend_units inp p' = Ok a' /\
    res_recommended_units a = 0 /\
    res_recommended_units a' = 0.
Proof.
  intros Hl Hliq Hp Hb.
  pose proof (beyond_liquidation_monotone _ _ _ _ Hp Hb) as Hb'.
  pose proof (ltb_not_geb _ _ Hl) as Hg.
  pose proof (recommend_units_ok inp p Hg) as Hr.
  pose proof (recommend_units_ok inp p' Hg) as Hr'.
  cbv zeta in Hr, Hr'.
  rewrite (liquidation_price_ok _ _ _ Hg) in Hliq. injection Hliq as Hliq.
  rewrite Hliq in Hr, Hr'. rewrite Hb in Hr. rewrite Hb' in Hr'.
  do 2 eexists. split; [exact Hr|]. split; [exact Hr'|].
  split; reflexivity.
Qed.

(** Scenario B at 44000 and, further down, at 40000. *)
Lemma override_monotone_witness :
  exists a a',
    recommend_units scenario_B 44000 = Ok a /\
    recommend_units scenario_B 40000 = Ok a' /\
    res_recommended_units a = 0 /\
    res_recommended_units a' = 0.
Proof.
  apply (override_monotone scenario_B 44000 40000 45000);
    [reflexivity | reflexivity | left; split; reflexivity | reflexivity].
Defined.

(** X9 -- the live price acts through the override alone.  With a
    leverage above zero, two live prices for which the sanity check gives
    the same answer give the same recommended units and the same
    recommended margin capital. *)
Theorem live_price_through_override (inp : RiskInput) (p1 p2 liq : float) :
  (0 <? leverage inp) = true ->
  liquidation_price (entry inp) (leverage inp) (side inp) = Ok liq ->
  beyond_liquidation (side inp) p1 liq
    = beyond_liquidation (side inp) p2 liq ->
  exists a1 a2,
    recommend_units inp p1 = Ok a1 /\
    recommend_units inp p2 = Ok a2 /\
    res_recommended_units a1 = res_recommended_units a2 /\
    res_recommended_margin_capital a1 = res_recommended_margin_capital a2.
Proof.
  intros Hl Hliq Hb.
  pose proof (ltb_not_geb _ _ Hl) as Hg.
  pose proof (recommend_units_ok inp p1 Hg) as H1.
  pose proof (recommend_units_ok inp p2 Hg) as H2.
  cbv zeta in H1, H2.
  rewrite (liquidation_price_ok _ _ _ Hg) in Hliq. injection Hliq as Hliq.
  rewrite Hliq in H1, H2. rewrite Hb in H1.
  do 2 eexists. split; [exact H1|]. split; [exact H2|].
  split; reflexivity.
Qed.

(** Scenario B at 50000 and at 60000, both above the liquidation price. *)
Lemma live_price_through_override_witness :
  exists a1 a2,
    recommend_units scenario_B 50000 = Ok a1 /\
    recommend_units scenario_B 60000 = Ok a2 /\
    res_recommended_units a1 = res_recommended_units a2 /\
    res_recommended_margin_capital a1 = res_recommended_margin_capital a2.
Proof.
  apply (live_price_through_override scenario_B 50000 60000 45000);
    reflexivity.
Defined.

End Engine.

(** * Degenerate inputs *)

Section DegenerateInputs.
Local Open Scope float_scope.

(** A float below zero is negative and finite, or [-inf]. *)
Lemma neg_shape (x : float) :
  (x <? 0) = true ->
  Prim2SF x = S754_infinity true \/
  exists m e, Prim2SF x = S754_finite true m e.
Proof.
  rewrite ltb_spec, Prim2SF_zero. unfold SFltb, SFcompare.
  destruct (Prim2SF x) as [s|[]| |[] m e]; try discriminate; eauto.
Qed.

(** NaN and the floats with the sign bit set are not above zero. *)
Lemma nan_or_signed_true_not_pos (x : float) :
  Prim2SF x = S754_nan \/ SFsigned true (Prim2SF x) -> (0 <? x) = false.
Proof.
  rewrite ltb_spec, Prim2SF_zero. unfold SFltb, SFcompare.
  destruct (Prim2SF x) as [s|s| |s m e]; simpl;
    intros [H|H]; try discriminate H; try contradiction; subst;
    reflexivity.
Qed.

(** A float below zero times [max(0.0, r)] is NaN or has its sign bit
    set. *)
Lemma neg_mul_max2 (q r : float) :
  (q <? 0) = true ->
  Prim2SF (q * Py.max2 0 r) = S754_nan \/
  SFsigned true (Prim2SF (q * Py.max2 0 r)).
Proof.
  intros Hq. unfold Py.max2. rewrite mul_spec.
  destruct (0 <? r) eqn:Hr.
  - destruct (neg_shape q Hq) as [->|(mq & eq & ->)];
      destruct (pos_shape r Hr) as [(mr & er & ->)| ->];
      try (right; reflexivity).
    right. apply (binary_round_aux_signed true). lia.
  - rewrite Prim2SF_zero.
    destruct (neg_shape q Hq) as [->|(mq & eq & ->)];
      [left|right]; reflexivity.
Qed.

(** NaN or a float with the sign bit set, divided by a float that is not
    at or below zero, is again NaN or carries the sign bit. *)
Lemma nan_or_signed_true_div (x y : float) :
  Prim2SF x = S754_nan \/ SFsigned true (Prim2SF x) ->
  (y <=? 0) = false ->
  Prim2SF (x / y) = S754_nan \/ SFsigned true (Prim2SF (x / y)).
Proof.
  intros Hx Hy. rewrite div_spec.
  destruct Hx as [->|Hx]; [left; reflexivity|].
  destruct (not_nonpos_shape y Hy) as [->|Ey].
  { left. destruct (Prim2SF x); reflexivity. }
  destruct (Prim2SF x) as [s|s| |s mx ex] eqn:Ex; simpl in Hx;
    try contradiction; subst s.
  - right. change true with (xorb true false).
    apply SFdiv_signed; [eauto|]. destruct Ey as [->|Ey]; eauto.
  - destruct Ey as [->|(my & ey & ->)]; [left|right]; reflexivity.
  - right. change true with (xorb true false).
    apply SFdiv_signed; [eauto|]. destruct Ey as [->|Ey]; eauto.
Qed.

(** With an equity below zero neither cap is above zero. *)
Lemma units_by_risk_negative_equity (q r pu : float) :
  (q <? 0) = true ->
  (0 <? (if pu <=? 0 then 0 else q * Py.max2 0 r / pu)) = false.
Proof.
  intros Hq. destruct (pu <=? 0) eqn:E; [reflexivity|].
  apply nan_or_signed_true_not_pos, nan_or_signed_true_div; [|exact E].
  apply neg_mul_max2, Hq.
Qed.

Lemma units_by_margin_negative_equity (q mpu : float) :
  (q <? 0) = true ->
  (0 <? (if mpu <=? 0 then 0 else q / mpu)) = false.
Proof.
  intros Hq. destruct (mpu <=? 0) eqn:E; [reflexivity|].
  apply nan_or_signed_true_not_pos, nan_or_signed_true_div; [|exact E].
  right. destruct (neg_shape q Hq) as [->|(m & e & ->)]; reflexivity.
Qed.

(** A float that equals itself is not NaN: it carries a sign. *)
Lemma number_signed (x : float) :
  (x =? x) = true -> exists s, SFsigned s (Prim2SF x).
Proof.
  intros H. pose proof (eqb_self_not_nan x H) as N.
  destruct (Prim2SF x) as [s|s| |s m e]; try (exists s; reflexivity).
  contradiction.
Qed.

Lemma signed_number (x : float) (s : bool) :
  SFsigned s (Prim2SF x) -> (x =? x) = true.
Proof.
  intros H. rewrite eqb_spec. unfold SFeqb.
  rewrite SFcompare_refl; [reflexivity|].
  intros E. rewrite E in H. exact H.
Qed.

(** The quotient of a number by a float above zero is a number, unless
    both are infinite. *)
Lemma div_number (x y : float) :
  (x =? x) = true -> (0 <? y) = true ->
  is_finite x = true \/ is_finite y = true ->
  (x / y =? x / y) = true.
Proof.
  intros Hx Hy Hf.
  destruct (is_finite x) eqn:Fx.
  { destruct (div_finite_pos_signed x y Fx Hy) as (s & Hs).
    apply (signed_number _ s Hs). }
  destruct Hf as [Hf|Fy]; [discriminate Hf|].
  destruct (number_signed x Hx) as (s & Hs).
  assert (Ey : exists m e, Prim2SF y = S754_finite false m e).
  { destruct (pos_shape y Hy) as [H|H]; [exact H|].
    destruct (finite_shape y Fy) as [(s' & E)|(s' & m & e & E)];
      rewrite E in H; discriminate. }
  destruct Ey as (my & ey & Ey).
  destruct (Prim2SF x) as [sx|sx| |sx mx ex] eqn:Ex; simpl in Hs;
    try contradiction.
  - apply (signed_number _ (xorb sx false)). rewrite div_spec, Ex, Ey.
    reflexivity.
  - apply (signed_number _ (xorb sx false)). rewrite div_spec, Ex, Ey.
    reflexivity.
  - apply (signed_number _ (xorb sx false)). rewrite div_spec, Ex.
    apply SFdiv_signed; eauto.
Qed.

(** A float at or below zero divided by a float above zero is at or
    below zero, unless the quotient is NaN. *)
Lemma div_nonpos_number (x y : float) :
  (x <=? 0) = true -> (0 <? y) = true -> (x / y =? x / y) = true ->
  (x / y <=? 0) = true.
Proof.
  intros Hx Hy Hn. pose proof (eqb_self_not_nan _ Hn) as N.
  rewrite div_spec in N.
  assert (Ey : Prim2SF y = S754_infinity false \/
               exists m e, Prim2SF y = S754_finite false m e).
  { destruct (pos_shape y Hy) as [H|H]; auto. }
  destruct (Prim2SF x) as [sx|sx| |sx mx ex] eqn:Ex.
  - rewrite leb_spec, div_spec, Ex, Prim2SF_zero.
    destruct Ey as [->|(my & ey & ->)]; destruct sx; reflexivity.
  - destruct (nonpos_shape x Hx) as [H|H]; rewrite Ex in H;
      [|discriminate H]. simpl in H. subst sx.
    destruct Ey as [Ey|(my & ey & Ey)]; rewrite Ey in N.
    + exfalso. apply N. reflexivity.
    + rewrite leb_spec, div_spec, Ex, Ey, Prim2SF_zero. reflexivity.
  - rewrite leb_spec, Ex, Prim2SF_zero in Hx. discriminate Hx.
  - destruct (nonpos_shape x Hx) as [H|H]; rewrite Ex in H;
      [|discriminate H]. simpl in H. subst sx.
    apply signed_true_nonpos. rewrite div_spec, Ex.
    change true with (xorb true false). apply SFdiv_signed; eauto.
Qed.

(** A float equal to zero is at or below zero. *)
Lemma eqb_zero_nonpos (x : float) : (x =? 0) = true -> (x <=? 0) = true.
Proof.
  intros H. destruct (zero_shape x H) as (s & E).
  rewrite leb_spec, E, Prim2SF_zero. destruct s; reflexivity.
Qed.

(** C4, as stated, fails: with leverage 10 and a negative equity the
    recommendation is the negative margin cap [-2], and with the stop of a
    long position above its entry (per-unit risk [0] with a stop present)
    it is the margin cap [2]; neither is [0].  With an entry of [-inf] at
    a leverage of [+inf] the margin per unit is NaN and so is the
    recommendation. *)
Lemma degenerate_inputs_counterexample :
  ((0 <? leverage negative_equity) = true /\
   (equity_usd negative_equity <=? 0) = true /\
   exists a, recommend_units negative_equity 50000 = Ok a /\
             res_recommended_units a = (-2)%float /\
             (res_recommended_units a =? 0) = false) /\
  ((0 <? leverage misplaced_stop) = true /\
   per_unit_risk (entry misplaced_stop) (stop_loss misplaced_stop)
     (side misplaced_stop) = 0 /\
   exists a, recommend_units misplaced_stop 50000 = Ok a /\
             res_recommended_units a = 2 /\
             (res_recommended_units a =? 0) = false) /\
  ((0 <? leverage infinite_entry) = true /\
   (entry infinite_entry <=? 0) = true /\
   exists a, recommend_units infinite_entry 50000 = Ok a /\
             res_recommended_units a = nan /\
             (res_recommended_units a =? 0) = false).
Proof.
  repeat split; eexists; repeat split.
Qed.

(** C4, amended.  With a leverage above zero [recommend_units] never
    raises.  The margin per unit is a number (not NaN) whenever the entry
    is a number and the entry or the leverage is finite; when it is a
    number, the recommended units equal zero for an entry at or below
    zero and for an equity equal to zero.  An equity below zero and a
    misplaced stop are not forced to zero.  With an equity below zero the
    units by risk are never above zero and never enter the minimum: the
    recommended units are the units by margin ([0.0] when the margin per
    unit is at or below zero, else [equity / margin_per_unit]), or [0.0]
    under the liquidation override, and they are never above zero.  With
    a stop present and a per-unit risk equal to zero the units by risk
    are [0.0] and left out of the minimum: the recommended units are the
    units by margin, or [0.0] under the override. *)
Theorem degenerate_inputs_amended (inp : RiskInput) (live_price : float) :
  (0 <? leverage inp) = true ->
  exists a,
    recommend_units inp live_price = Ok a /\
    ((entry inp =? entry inp) = true ->
     is_finite (entry inp) = true \/ is_finite (leverage inp) = true ->
     (res_margin_per_unit a =? res_margin_per_unit a) = true) /\
    ((res_margin_per_unit a =? res_margin_per_unit a) = true ->
     (entry inp <=? 0) = true \/ (equity_usd inp =? 0) = true ->
     (res_recommended_units a =? 0) = true) /\
    ((equity_usd inp <? 0) = true ->
     (0 <? res_units_by_risk a) = false /\
     res_max_units_by_margin a
       = (if res_margin_per_unit a <=? 0 then 0
          else equity_usd inp / res_margin_per_unit a) /\
     res_recommended_units a
       = (if beyond_liquidation (side inp) live_price
               (res_liquidation_price a)
          then 0 else res_max_units_by_margin a) /\
     (0 <? res_recommended_units a) = false) /\
    (forall st,
       stop_loss inp = Some st ->
       (res_per_unit_risk a =? 0) = true ->
       res_units_by_risk a = 0 /\
       res_recommended_units a
         = (if beyond_liquidation (side inp) live_price
                 (res_liquidation_price a)
            then 0 else res_max_units_by_margin a)).
Proof.
  intros Hl.
  pose proof (ltb_not_geb _ _ Hl) as Hg.
  pose proof (recommend_units_ok inp live_price Hg) as Hr. cbv zeta in Hr.
  eexists. split; [exact Hr|].
  cbn [res_recommended_units res_margin_per_unit res_units_by_risk
       res_max_units_by_margin res_liquidation_price res_per_unit_risk].
  split; [|split; [|split]].
  - intros Hn Hf. apply div_number; assumption.
  - intros Hn Hdeg.
    destruct (beyond_liquidation _ _ _); [reflexivity|].
    destruct Hdeg as [He|Hq].
    + rewrite (div_nonpos_number _ _ He Hl Hn).
      match goal with
      | |- context [0 <? ?u] => destruct (0 <? u) eqn:Hu; [|reflexivity]
      end.
      rewrite (ltb_asym _ _ Hu). reflexivity.
    + rewrite (units_by_risk_zero_equity _ _ _ Hq).
      destruct (entry inp / leverage inp <=? 0) eqn:Hm; [reflexivity|].
      destruct (number_signed _ Hn) as (s & Hs).
      apply (div_zero_num _ _ s Hq Hs Hm).
  - intros Hq.
    rewrite (units_by_risk_negative_equity _ (risk_percent inp)
               (per_unit_risk (entry inp) (stop_loss inp) (side inp)) Hq).
    split; [reflexivity|]. split; [reflexivity|]. split; [reflexivity|].
    destruct (beyond_liquidation _ _ _); [reflexivity|].
    apply units_by_margin_negative_equity, Hq.
  - intros st _ Hpu.
    rewrite (eqb_zero_nonpos _ Hpu).
    change (0 <? 0) with false. cbv iota. split; reflexivity.
Qed.

(** A short request with zero equity and an entry of [-inf]; the request
    with a negative equity; and the request with the stop of a long
    position above its entry, each at a live price of 50000. *)
Lemma degenerate_inputs_amended_witness :
  (exists a,
     recommend_units
       {| equity_usd := 0; entry := neg_infinity; leverage := 10;
          side := Short; stop_loss := None; risk_percent := 0.02 |}
       50000 = Ok a /\
     (res_recommended_units a =? 0) = true) /\
  (exists a,
     recommend_units negative_equity 50000 = Ok a /\
     res_recommended_units a
       = (if beyond_liquidation Long 50000 (res_liquidation_price a)
          then 0 else res_max_units_by_margin a) /\
     (0 <? res_recommended_units a) = false) /\
  (exists a,
     recommend_units misplaced_stop 50000 = Ok a /\
     res_units_by_risk a = 0 /\
     res_recommended_units a
       = (if beyond_liquidation Long 50000 (res_liquidation_price a)
          then 0 else res_max_units_by_margin a)).
Proof.
  split; [|split].
  - destruct (degenerate_inputs_amended
                {| equity_usd := 0; entry := neg_infinity; leverage := 10;
                   side := Short; stop_loss := None;
                   risk_percent := 0.02 |}
                50000 eq_refl) as (a & Ha & Hn & Hz & _).
    exists a. split; [exact Ha|].
    apply Hz; [apply Hn; [reflexivity|right; reflexivity]
              |left; reflexivity].
  - destruct (degenerate_inputs_amended negative_equity 50000 eq_refl)
      as (a & Ha & _ & _ & Hq & _).
    exists a. split; [exact Ha|].
    destruct (Hq eq_refl) as (_ & _ & Hrec & Hnp).
    split; [exact Hrec|exact Hnp].
  - destruct (degenerate_inputs_amended misplaced_stop 50000 eq_refl)
      as (a & Ha & _ & _ & _ & Hs).
    exists a. split; [exact Ha|].
    apply (Hs 51000 eq_refl).
    vm_compute in Ha. injection Ha as <-. reflexivity.
Defined.

End DegenerateInputs.

(** * The live feed and the refresh loop *)

Section Feed.
Local Open Scope float_scope.

(** X10 -- when [fetch_price] has no price.  A last price that is not
    [None] is converted by [float] and returned, whatever bid and ask
    are: a float as it is, zero included.  The result is [None] exactly
    when the exchange call raised, when the ticker is no dict, when
    [float(last)] raises, or when there is no last price and bid or ask
    is false (missing, [None], zero, empty) or their middle cannot be
    computed. *)
Theorem fetch_price_none_iff (py : Builtins) (r : result pyval) :
  (forall d last,
     r = Ok (PDict d) -> dict_get d "last" = Some last -> last <> PNone ->
     fetch_price py r = py_float py last) /\
  (forall d p,
     r = Ok (PDict d) -> dict_get d "last" = Some (PFloat p) ->
     fetch_price py r = Some p) /\
  (fetch_price py r = None <->
   raises r \/
   exists t, r = Ok t /\
     (py_get t "last" PNone = None \/
      (exists last, py_get t "last" PNone = Some last /\
                    last <> PNone /\ py_float py last = None) \/
      (py_get t "last" PNone = Some PNone /\
       exists bid ask,
         py_get t "bid" PNone = Some bid /\
         py_get t "ask" PNone = Some ask /\
         (py_bool bid = false \/ py_bool ask = false \/
          mid py bid ask = None)))).
Proof.
  split; [|split].
  - intros d last -> Hl Hn. unfold fetch_price, py_get. rewrite Hl.
    destruct last; try reflexivity. contradiction.
  - intros d p -> Hl. unfold fetch_price, py_get. rewrite Hl. reflexivity.
  - destruct r as [t|e]; unfold fetch_price, raises.
    2:{ split; [|reflexivity]. intros _. left. exists e. reflexivity. }
    destruct (py_get t "last" PNone) as [last|] eqn:El.
    2:{ split; [|reflexivity]. intros _. right. exists t. auto. }
    assert (Hconv : last <> PNone ->
              (py_float py last = None <->
               (exists e, @Ok pyval t = Raise e) \/
               exists t', Ok t = Ok t' /\
                 (py_get t' "last" PNone = None \/
                  (exists last', py_get t' "last" PNone = Some last' /\
                     last' <> PNone /\ py_float py last' = None) \/
                  (py_get t' "last" PNone = Some PNone /\
                   exists bid ask,
                     py_get t' "bid" PNone = Some bid /\
                     py_get t' "ask" PNone = Some ask /\
                     (py_bool bid = false \/ py_bool ask = false \/
                      mid py bid ask = None))))).
    { intros Hn. split.
      - intros Hf. right. exists t. split; [reflexivity|].
        right. left. exists last. auto.
      - intros [[e He]|(t' & Ht & H)]; [discriminate|].
        injection Ht as <-. rewrite El in H.
        destruct H as [H|[(last' & H & _ & Hf)|[H _]]].
        + discriminate.
        + injection H as <-. exact Hf.
        + injection H as ->. contradiction. }
    destruct last; try (apply Hconv; discriminate).
    clear Hconv.
    assert (Ed : exists d, t = PDict d).
    { destruct t; try discriminate El. eauto. }
    destruct Ed as (d & ->). cbn [py_get].
    destruct (py_bool _ && py_bool _) eqn:Eb.
    + apply andb_prop in Eb as [Hb Ha]. split.
      * intros Hm. right. exists (PDict d). split; [reflexivity|].
        right. right. split; [exact El|].
        do 2 eexists. split; [reflexivity|]. split; [reflexivity|]. auto.
      * intros [[e He]|(t' & Ht & H)]; [discriminate|].
        injection Ht as <-. rewrite El in H.
        destruct H as [H|[(last' & H & Hn & _)|[_ H]]].
        -- discriminate.
        -- injection H as <-. contradiction.
        -- destruct H as (bid & ask & Hbid & Hask & H).
           cbn [py_get] in Hbid, Hask.
           injection Hbid as <-. injection Hask as <-.
           destruct H as [H|[H|H]]; [congruence|congruence|exact H].
    + split; [|reflexivity]. intros _.
      right. exists (PDict d). split; [reflexivity|].
      right. right. split; [exact El|].
      do 2 eexists. split; [reflexivity|]. split; [reflexivity|].
      apply andb_false_iff in Eb as [H|H]; auto.
Qed.

(** Codes that agree after upper-casing need no request. *)
Lemma fetch_fx_rate_same (py : Builtins) (base quote : string)
  (response : result pyval) :
  str_upper py base = str_upper py quote ->
  fetch_fx_rate py base quote response = 1.
Proof.
  unfold fetch_fx_rate. intros ->. rewrite String.eqb_refl. reflexivity.
Qed.

(** X11 -- when the conversion rate is zero.  [fetch_fx_rate] returns
    [1.0] when the two codes agree after upper-casing and when the
    request fails.  It returns a rate equal to zero only when the
    response holds a true str or int under the quote code and [float]
    converts that very value to zero; a rate that is a float, a bool,
    [None], a list, a dict or missing never gives zero.  A rate sent as
    a non-empty str is returned as [float] converts it, zero included. *)
Theorem fetch_fx_rate_zero (py : Builtins) (base quote : string)
  (response : result pyval) :
  (str_upper py base = str_upper py quote ->
   fetch_fx_rate py base quote response = 1) /\
  (raises response -> fetch_fx_rate py base quote response = 1) /\
  ((fetch_fx_rate py base quote response =? 0) = true ->
   exists data rates rate,
     response = Ok data /\
     py_get data "rates" (PDict []) = Some rates /\
     py_get rates (str_upper py quote) PNone = Some rate /\
     py_bool rate = true /\
     ((exists s, rate = PStr s) \/ (exists z, rate = PInt z)) /\
     py_float py rate = Some (fetch_fx_rate py base quote response)) /\
  (forall data rates s x,
     str_upper py base <> str_upper py quote ->
     response = Ok data ->
     py_get data "rates" (PDict []) = Some rates ->
     py_get rates (str_upper py quote) PNone = Some (PStr s) ->
     s <> EmptyString ->
     float_of_str py s = Some x ->
     fetch_fx_rate py base quote response = x).
Proof.
  split; [apply fetch_fx_rate_same|]. split; [|split].
  3:{ intros data rates s x Hne -> Er Eq Hs Hx. unfold fetch_fx_rate.
      apply String.eqb_neq in Hne. rewrite Hne, Er, Eq.
      cbn [py_bool py_float].
      apply String.eqb_neq in Hs. rewrite Hs, Hx. reflexivity. }
  - intros [e ->]. unfold fetch_fx_rate.
    destruct (String.eqb _ _); reflexivity.
  - unfold fetch_fx_rate.
    destruct (String.eqb _ _); [discriminate|].
    destruct response as [data|e]; [|discriminate].
    destruct (py_get data "rates" (PDict [])) as [rates|] eqn:Er;
      [|discriminate].
    destruct (py_get rates (str_upper py quote) PNone) as [rate|] eqn:Eq;
      [|discriminate].
    destruct (py_bool rate) eqn:Eb; [|discriminate].
    destruct (py_float py rate) as [x|] eqn:Ef; [|discriminate].
    intros Hz. exists data, rates, rate.
    split; [reflexivity|]. split; [exact Er|]. split; [exact Eq|].
    split; [exact Eb|]. split; [|exact Ef].
    destruct rate; cbn [py_bool py_float] in Eb, Ef; eauto;
      try discriminate Ef.
    + injection Ef as <-. destruct b; discriminate.
    + injection Ef as <-. unfold truthy in Eb. rewrite Hz in Eb.
      discriminate Eb.
Qed.

(** X12 -- no conversion between equal currencies.  When the quote and
    the display currency agree after upper-casing, a pass of the loop that
    has a price and an assessment shows the equity, the margin per unit
    and the recommended margin capital unchanged: the rate is [1.0], and
    multiplying by [1.0] is exact for every float.  The pass then sleeps;
    when that raises, the handler reports it and the exception of its own
    sleep leaves [main]. *)
Theorem cycle_same_currency (py : Builtins) (args : Args)
  (fetch_ticker response : result pyval)
  (live_price : float) (res : Assessment) :
  str_upper py (arg_quote_currency args)
    = str_upper py (arg_display_currency args) ->
  fetch_price py fetch_ticker = Some live_price ->
  recommend_units
    {| equity_usd := arg_equity args; entry := arg_entry args;
       leverage := arg_leverage args; side := arg_side args;
       stop_loss := arg_stop args; risk_percent := arg_risk args |}
    live_price = Ok res ->
  cycle py args fetch_ticker response
    = let shown :=
        Shown res (arg_equity args) (res_margin_per_unit res)
          (res_recommended_margin_capital res) in
      match time_sleep py (arg_interval args) with
      | Ok _ => ([shown], NextPass)
      | Raise e => ([shown; Errored e], Uncaught e)
      end.
Proof.
  intros Hc Hp Hr. unfold cycle, try_body. cbv zeta. rewrite Hp, Hr.
  rewrite (fetch_fx_rate_same py _ _ response Hc), !mul_one_r.
  destruct (time_sleep py (arg_interval args)); reflexivity.
Qed.

(** X13 -- how a pass of the loop ends.  With an interval that
    [time.sleep] accepts the pass always goes on to the next one;
    without a price it only warns and the engine is not called, also
    with an invalid leverage; and it reports an exception exactly when
    it has a price and the leverage is at or below zero, the exception
    being the [ValueError] of the leverage guard.  With an interval that
    [time.sleep] rejects no pass goes on: the exception of the sleep in
    the handler, which no [try] encloses, leaves [main], whatever the
    feed delivered; before that the pass reports the exception of the
    sleep in the [try], or with a price and an invalid leverage that of
    the leverage guard alone. *)
Theorem cycle_outcome (py : Builtins) (args : Args)
  (fetch_ticker response : result pyval) :
  (time_sleep py (arg_interval args) = Ok tt ->
   snd (cycle py args fetch_ticker response) = NextPass /\
   (fetch_price py fetch_ticker = None ->
    fst (cycle py args fetch_ticker response) = [NoPrice]) /\
   (forall e,
      In (Errored e) (fst (cycle py args fetch_ticker response)) <->
      (exists live_price, fetch_price py fetch_ticker = Some live_price) /\
      (arg_leverage args <=? 0) = true /\
      e = invalid_leverage)) /\
  (forall e,
     time_sleep py (arg_interval args) = Raise e ->
     snd (cycle py args fetch_ticker response) = Uncaught e /\
     (fetch_price py fetch_ticker = None ->
      fst (cycle py args fetch_ticker response) = [NoPrice; Errored e]) /\
     ((arg_leverage args <=? 0) = false ->
      In (Errored e) (fst (cycle py args fetch_ticker response))) /\
     (forall live_price,
        fetch_price py fetch_ticker = Some live_price ->
        (arg_leverage args <=? 0) = true ->
        fst (cycle py args fetch_ticker response)
          = [Errored invalid_leverage])).
Proof.
  unfold cycle, try_body. cbv zeta.
  set (inp := {| equity_usd := arg_equity args; entry := arg_entry args;
                 leverage := arg_leverage args; side := arg_side args;
                 stop_loss := arg_stop args;
                 risk_percent := arg_risk args |}).
  split.
  - intros Hs. rewrite Hs.
    destruct (fetch_price py fetch_ticker) as [live_price|].
    + destruct (arg_leverage args <=? 0) eqn:E.
      * rewrite (recommend_units_invalid inp live_price E).
        cbn [fst snd app].
        split; [reflexivity|]. split; [discriminate|].
        intros e. split.
        -- intros [H|[]]. injection H as <-. eauto.
        -- intros (_ & _ & ->). left. reflexivity.
      * pose proof (recommend_units_ok inp live_price E) as Hr.
        cbv zeta in Hr. rewrite Hr. cbn [fst snd].
        split; [reflexivity|]. split; [discriminate|].
        intros e. split.
        -- intros [H|[]]. discriminate H.
        -- intros (_ & H & _). discriminate H.
    + cbn [fst snd]. split; [reflexivity|]. split; [reflexivity|].
      intros e. split.
      * intros [H|[]]. discriminate H.
      * intros ((p & H) & _). discriminate H.
  - intros e Hs. rewrite Hs.
    destruct (fetch_price py fetch_ticker) as [live_price|].
    + destruct (arg_leverage args <=? 0) eqn:E.
      * rewrite (recommend_units_invalid inp live_price E).
        cbn [fst snd app].
        split; [reflexivity|]. split; [discriminate|].
        split; [discriminate|]. reflexivity.
      * pose proof (recommend_units_ok inp live_price E) as Hr.
        cbv zeta in Hr. rewrite Hr. cbn [fst snd app].
        split; [reflexivity|]. split; [discriminate|].
        split; [intros _; right; left; reflexivity|]. discriminate.
    + cbn [fst snd app].
      split; [reflexivity|]. split; [reflexivity|].
      split; [intros _; right; left; reflexivity|]. discriminate.
Qed.

(** The worked example with the default currencies, a ticker that has a
    last price, [str.upper] taken as the identity on "USD", and an
    interval that [time.sleep] accepts. *)
Lemma cycle_same_currency_witness :
  exists res,
    cycle
      {| str_upper := fun s => s; float_of_str := fun _ => None;
         float_of_int := fun _ => None; time_sleep := fun _ => Ok tt |}
      {| arg_equity := 10000; arg_leverage := 10; arg_entry := 50000;
         arg_side := Long; arg_stop := Some 49000; arg_risk := 0.02;
         arg_interval := 2;
         arg_display_currency := "USD"; arg_quote_currency := "USD" |}
      (Ok (PDict [("last"%string, PFloat 50000)])) (Ok (PDict []))
    = ([Shown res 10000 (res_margin_per_unit res)
          (res_recommended_margin_capital res)], NextPass).
Proof.
  eexists.
  apply (cycle_same_currency
           {| str_upper := fun s => s; float_of_str := fun _ => None;
              float_of_int := fun _ => None;
              time_sleep := fun _ => Ok tt |}
           {| arg_equity := 10000; arg_leverage := 10; arg_entry := 50000;
              arg_side := Long; arg_stop := Some 49000; arg_risk := 0.02;
              arg_interval := 2;
              arg_display_currency := "USD"; arg_quote_currency := "USD" |}
           (Ok (PDict [("last"%string, PFloat 50000)])) (Ok (PDict []))
           50000);
    reflexivity.
Defined.

End Feed.

(** * More on rounding: values, locations and strict bounds *)

Section ValuesAndLocations.
Local Open Scope Z_scope.
Local Open Scope float_scope.

(** The value of a mantissa aligned to a smaller exponent. *)
Lemma F2Q_aligned (m : positive) (e ez : Z) :
  (ez <= e)%Z -> (F2Q (Z.pos m * 2 ^ (e - ez)) ez == F2Q (Z.pos m) e)%Q.
Proof.
  intros H. rewrite F2Q_shift by lia.
  replace (ez + (e - ez))%Z with e by lia. reflexivity.
Qed.

(** Two valid positive finite numbers compare as their values. *)
Lemma SFleb_value (m1 m2 : positive) (e1 e2 : Z) :
  bounded prec emax m1 e1 = true -> bounded prec emax m2 e2 = true ->
  SFleb (S754_finite false m1 e1) (S754_finite false m2 e2) = true <->
  (F2Q (Z.pos m1) e1 <= F2Q (Z.pos m2) e2)%Q.
Proof.
  intros V1 V2. unfold SFleb.
  rewrite (SFcompare_finite false false m1 m2 e1 e2 V1 V2).
  cbn [cond_Zopp].
  rewrite <- (F2Q_aligned m1 e1 (Z.min e1 e2)) by lia.
  rewrite <- (F2Q_aligned m2 e2 (Z.min e1 e2)) by lia.
  rewrite F2Q_le_same.
  destruct (Z.compare_spec (Z.pos m1 * 2 ^ (e1 - Z.min e1 e2))
              (Z.pos m2 * 2 ^ (e2 - Z.min e1 e2)));
    split; intros; try reflexivity; try discriminate; lia.
Qed.

(** The same for the strict comparison. *)
Lemma SFltb_value (m1 m2 : positive) (e1 e2 : Z) :
  bounded prec emax m1 e1 = true -> bounded prec emax m2 e2 = true ->
  SFltb (S754_finite false m1 e1) (S754_finite false m2 e2) = true <->
  (F2Q (Z.pos m1) e1 < F2Q (Z.pos m2) e2)%Q.
Proof.
  intros V1 V2. unfold SFltb.
  rewrite (SFcompare_finite false false m1 m2 e1 e2 V1 V2).
  cbn [cond_Zopp].
  rewrite <- (F2Q_aligned m1 e1 (Z.min e1 e2)) by lia.
  rewrite <- (F2Q_aligned m2 e2 (Z.min e1 e2)) by lia.
  rewrite F2Q_lt_same.
  destruct (Z.compare_spec (Z.pos m1 * 2 ^ (e1 - Z.min e1 e2))
              (Z.pos m2 * 2 ^ (e2 - Z.min e1 e2)));
    split; intros; try reflexivity; try discriminate; lia.
Qed.

(** Every shift halves the mantissa, whatever the sticky bits are. *)
Lemma shr_iter_m (k : nat) (mrs : shr_record) :
  (0 <= shr_m mrs)%Z ->
  shr_m (Nat.iter k shr_1 mrs) = (shr_m mrs / 2 ^ Z.of_nat k)%Z.
Proof.
  intros Hm. induction k as [|k IH].
  - simpl. rewrite Z.div_1_r. reflexivity.
  - rewrite Nat.iter_succ.
    rewrite (shr_1_spec _ (shr_iter_nonneg k mrs Hm)). cbn [shr_m].
    rewrite IH, Nat2Z.inj_succ, Z.pow_succ_r by lia.
    rewrite Z.div_div by (try apply Z.pow_pos_nonneg; lia).
    f_equal. lia.
Qed.

(** Truncation to the exponent of the format divides the mantissa by a
    power of two, whatever the location. *)
Lemma shr_fexp_m (m e : Z) (l : location) :
  (0 <= m)%Z ->
  exists mrs,
    shr_fexp prec emax m e l
      = (mrs, Z.max e (fexp64 (Zdigits2 m + e))) /\
    shr_m mrs = (m / 2 ^ (Z.max e (fexp64 (Zdigits2 m + e)) - e))%Z.
Proof.
  intros Hm. unfold shr_fexp, shr.
  assert (H0 : shr_m (shr_record_of_loc m l) = m).
  { destruct l as [|[]]; reflexivity. }
  set (f := fexp64 (Zdigits2 m + e)).
  destruct (f - e)%Z as [|p|p] eqn:Hn.
  - eexists. split; [f_equal; lia|].
    replace (Z.max e f) with e by lia.
    rewrite Z.sub_diag, Z.div_1_r. exact H0.
  - eexists. split; [f_equal; lia|].
    rewrite iter_pos_nat, shr_iter_m by (rewrite H0; exact Hm).
    rewrite H0, positive_nat_Z. f_equal. f_equal. lia.
  - eexists. split; [f_equal; lia|].
    replace (Z.max e f) with e by lia.
    rewrite Z.sub_diag, Z.div_1_r. exact H0.
Qed.

(** The rounding of a truncated mantissa with any location. *)
Lemma binary_round_aux_spec_loc (sx : bool) (m e : Z) (l : location) :
  (0 <= m)%Z ->
  let e1 := Z.max e (fexp64 (Zdigits2 m + e)) in
  let m1 := (m / 2 ^ (e1 - e))%Z in
  exists m2,
    (m1 <= m2 <= m1 + 1)%Z /\
    let e3 := Z.max e1 (fexp64 (Zdigits2 m2 + e1)) in
    binary_round_aux prec emax sx m e l =
      match (m2 / 2 ^ (e3 - e1))%Z with
      | Z0 => S754_zero sx
      | Zpos p => if (e3 <=? emax - prec)%Z then S754_finite sx p e3
                  else S754_infinity sx
      | Zneg _ => S754_nan
      end.
Proof.
  intros Hm e1 m1. unfold binary_round_aux.
  destruct (shr_fexp_m m e l Hm) as (mrs & -> & Hmrs).
  fold e1 in Hmrs |- *. fold m1 in Hmrs.
  destruct (round_nearest_even_spec (shr_m mrs) (loc_of_shr_record mrs))
    as [Hr _].
  set (m2 := round_nearest_even _ _) in *.
  assert (H1 : (0 <= m1)%Z).
  { apply Z.div_pos; [assumption|apply Z.pow_pos_nonneg; lia]. }
  assert (Hm2 : (0 <= m2)%Z) by lia.
  destruct (shr_fexp_m m2 e1 loc_Exact Hm2) as (mrs2 & -> & Hmrs2).
  exists m2. rewrite Hmrs in Hr. split; [exact Hr|].
  cbv zeta. rewrite Hmrs2. reflexivity.
Qed.

End ValuesAndLocations.

Section LowerBoundAnyLocation.
Local Open Scope Z_scope.

(** The same lower bound for a truncated mantissa with any location: the
    mantissa is itself below the exact value. *)
Lemma binary_round_aux_lower_loc (sx : bool) (m e : Z) (l : location)
  (mB : positive) (eB : Z) :
  0 < m ->
  bounded prec emax mB eB = true ->
  (F2Q (Z.pos mB) eB <= F2Q m e)%Q ->
  binary_round_aux prec emax sx m e l = S754_infinity sx \/
  exists m3 e3,
    binary_round_aux prec emax sx m e l = S754_finite sx m3 e3 /\
    (F2Q (Z.pos mB) eB <= F2Q (Z.pos m3) e3)%Q.
Proof.
  intros Hm VB Hle.
  destruct (bounded_spec _ _ VB) as [CB EB].
  destruct (binary_round_aux_spec_loc sx m e l ltac:(lia))
    as (m2 & Hm2 & Hres).
  cbv zeta in *.
  pose proof (trunc_canonical m e ltac:(lia)) as Hc1. cbv zeta in Hc1.
  set (d := Zdigits2 m) in *.
  set (e1 := Z.max e (fexp64 (d + e))) in *.
  set (m1 := m / 2 ^ (e1 - e)) in *.
  assert (Hp : 0 < 2 ^ (e1 - e)) by (apply Z.pow_pos_nonneg; lia).
  assert (H1 : 0 <= m1) by (apply Z.div_pos; lia).
  assert (Hd : 0 < d).
  { unfold d. rewrite Zdigits2_log2 by assumption.
    pose proof (Z.log2_nonneg m). lia. }
  (* the truncation is still above the bound *)
  assert (Hle1 : (F2Q (Z.pos mB) eB <= F2Q m1 e1)%Q).
  { destruct (Z_le_gt_dec e1 eB) as [L|G].
    - apply F2Q_le_r; [assumption|].
      apply (F2Q_le_r (Z.pos mB) m eB e ltac:(lia)) in Hle.
      unfold m1. apply Z.div_le_lower_bound; [assumption|].
      rewrite Z.mul_comm, <- Z.mul_assoc, <- Z.pow_add_r by lia.
      replace (eB - e1 + (e1 - e)) with (eB - e) by lia. exact Hle.
    - destruct (Z.eq_dec e1 e) as [E|N].
      + unfold m1. rewrite E, Z.sub_diag, Z.div_1_r. exact Hle.
      + apply Qlt_le_weak, F2Q_lt_digits; [| lia |].
        * assert (2 ^ (d - 1 - (e1 - e)) <= m1).
          { unfold m1.
            pose proof (Zdigits2_bounds m Hm) as [Hlo _]. fold d in Hlo.
            apply Z.div_le_lower_bound; [assumption|].
            rewrite <- Z.pow_add_r;
              [|lia|unfold e1 in *; rewrite !fexp64_eq in *; lia].
            replace (e1 - e + (d - 1 - (e1 - e))) with (d - 1) by lia.
            exact Hlo. }
          assert (0 < 2 ^ (d - 1 - (e1 - e))).
          { apply Z.pow_pos_nonneg; [lia|].
            unfold e1 in *; rewrite !fexp64_eq in *; lia. }
          lia.
        * assert (Hlow : 2 ^ 52 <= m1).
          { unfold m1.
            pose proof (Zdigits2_bounds m Hm) as [Hlo _]. fold d in Hlo.
            apply Z.div_le_lower_bound; [assumption|].
            rewrite <- Z.pow_add_r;
              [|unfold e1 in *; rewrite !fexp64_eq in *; lia|lia].
            replace (e1 - e + 52) with (d - 1)
              by (unfold e1 in *; rewrite !fexp64_eq in *; lia).
            exact Hlo. }
          assert (Z.log2 (2 ^ 52) <= Z.log2 m1) by (apply Z.log2_le_mono, Hlow).
          rewrite Z.log2_pow2 in H by lia.
          rewrite (Zdigits2_log2 m1) by lia.
          unfold e1 in *. rewrite !fexp64_eq in *. lia. }
  assert (Hle2 : (F2Q (Z.pos mB) eB <= F2Q m2 e1)%Q).
  { apply Qle_trans with (F2Q m1 e1); [exact Hle1|].
    apply F2Q_le_same. lia. }
  destruct (renormalise_exact m1 m2 e1 H1 Hc1 Hm2) as [Hx He3].
  cbv zeta in Hx, He3.
  set (e3 := Z.max e1 (fexp64 (Zdigits2 m2 + e1))) in *.
  assert (Hp3 : 0 < 2 ^ (e3 - e1)) by (apply Z.pow_pos_nonneg; lia).
  assert (Hle3 : (F2Q (Z.pos mB) eB <= F2Q (m2 / 2 ^ (e3 - e1)) e3)%Q).
  { apply Qle_trans with (F2Q m2 e1); [exact Hle2|].
    rewrite <- Hx at 1. rewrite F2Q_shift by lia.
    replace (e1 + (e3 - e1)) with e3 by lia. apply Qle_refl. }
  destruct (m2 / 2 ^ (e3 - e1)) as [|p|p] eqn:E3.
  - exfalso. pose proof (F2Q_pos (Z.pos mB) eB ltac:(lia)) as HB.
    unfold F2Q in Hle3 at 2. rewrite Qmult_0_l in Hle3.
    apply (Qlt_not_le _ _ HB Hle3).
  - destruct (e3 <=? emax - prec).
    + right. exists p, e3. split; [exact Hres|exact Hle3].
    + left. exact Hres.
  - assert (0 <= m2 / 2 ^ (e3 - e1)) by (apply Z.div_pos; lia). lia.
Qed.

End LowerBoundAnyLocation.

(** * The strict ordering of the liquidation prices *)

Section StrictOrdering.
Local Open Scope Z_scope.
Local Open Scope float_scope.


(** The float [2^52]. *)
Lemma Prim2SF_pow52 :
  Prim2SF 4503599627370496 = S754_finite false 4503599627370496 0.
Proof. reflexivity. Qed.

(** The float [2^-52]. *)
Lemma Prim2SF_eps :
  Prim2SF 0x1p-52 = S754_finite false 4503599627370496 (-104).
Proof. reflexivity. Qed.

(** The truncated quotient of [1] by a positive number that is at most
    [2^52] is at least [2^-52]. *)
Lemma div_one_core_lower (m2 : positive) (e2 : Z) :
  bounded prec emax m2 e2 = true ->
  (F2Q (Z.pos m2) e2 <= F2Q (Z.pos 4503599627370496) 0)%Q ->
  exists q e' lz,
    SFdiv_core_binary prec emax (Z.pos 4503599627370496) (-52)
      (Z.pos m2) e2 = (q, e', lz) /\
    (0 < q)%Z /\
    (F2Q (Z.pos 4503599627370496) (-104) <= F2Q q e')%Q.
Proof.
  intros V Hle. destruct (bounded_spec _ _ V) as [C _].
  unfold SFdiv_core_binary.
  change (Zdigits2 (Z.pos 4503599627370496)) with 53%Z.
  set (d2 := Zdigits2 (Z.pos m2)) in *.
  assert (Hd2 : (0 < d2)%Z) by (unfold d2; simpl; lia).
  set (e' := Z.min (fexp64 (53 + -52 - (d2 + e2))) (-52 - e2)).
  set (s := (-52 - e2 - e')%Z).
  assert (Hs : (0 <= s)%Z) by (unfold s, e'; lia).
  set (m' := match s with
             | 0%Z => Z.pos 4503599627370496
             | Z.pos _ => Z.shiftl (Z.pos 4503599627370496) s
             | Z.neg _ => 0%Z
             end).
  assert (Hm' : m' = (2 ^ (52 + s))%Z).
  { unfold m'. destruct s as [|p|p] eqn:Es; [reflexivity| |lia].
    rewrite Z.shiftl_mul_pow2 by lia.
    change (Z.pos 4503599627370496) with (2 ^ 52)%Z.
    rewrite <- Z.pow_add_r by lia. reflexivity. }
  assert (Hq : fst (Z.div_eucl m' (Z.pos m2)) = (m' / Z.pos m2)%Z)
    by reflexivity.
  destruct (Z.div_eucl m' (Z.pos m2)) as [q r]. cbn [fst] in Hq.
  exists q, e', (new_location (Z.pos m2) r).
  split; [reflexivity|].
  pose proof (Zdigits2_upper (Z.pos m2) ltac:(lia)) as Hup. fold d2 in Hup.
  destruct (Z_le_gt_dec e' (-52)) as [Le|Gt].
  - (* the bound is on the grid of the quotient *)
    assert (Hk : (2 ^ (-52 - e') <= q)%Z).
    { rewrite Hq, Hm'. apply Z.div_le_lower_bound; [lia|].
      destruct (Z_le_gt_dec e2 0) as [N|P].
      - apply (F2Q_le_l (Z.pos m2) (Z.pos 4503599627370496) e2 0 N) in Hle.
        change (Z.pos 4503599627370496) with (2 ^ 52)%Z in Hle.
        rewrite <- Z.pow_add_r in Hle by lia.
        replace (52 + s)%Z with ((52 + (0 - e2)) + (-52 - e'))%Z
          by (unfold s; lia).
        rewrite Z.pow_add_r by lia.
        assert (0 < 2 ^ (-52 - e'))%Z by (apply Z.pow_pos_nonneg; lia).
        nia.
      - apply (F2Q_le_r (Z.pos m2) (Z.pos 4503599627370496) e2 0
                 ltac:(lia)) in Hle.
        change (Z.pos 4503599627370496) with (2 ^ 52)%Z in Hle.
        replace (e2 - 0)%Z with e2 in Hle by lia.
        replace (-52 - e')%Z with (e2 + s)%Z by (unfold s; lia).
        rewrite (Z.pow_add_r 2 52 s), (Z.pow_add_r 2 e2 s) by lia.
        assert (0 < 2 ^ s)%Z by (apply Z.pow_pos_nonneg; lia).
        nia. }
    assert (0 < 2 ^ (-52 - e'))%Z by (apply Z.pow_pos_nonneg; lia).
    split; [lia|].
    apply Qle_trans with (F2Q (2 ^ (-52 - e')) e').
    + rewrite F2Q_pow2 by lia.
      change (Z.pos 4503599627370496) with (2 ^ 52)%Z.
      rewrite F2Q_pow2 by lia. apply bpow_le. lia.
    + apply F2Q_le_same. exact Hk.
  - (* the quotient has its 53 digits well above the bound *)
    assert (Hsd : (d2 <= s)%Z).
    { unfold s, e' in *. rewrite !fexp64_eq in *. lia. }
    assert (Hk : (2 ^ 52 <= q)%Z).
    { rewrite Hq, Hm'. apply Z.div_le_lower_bound; [lia|].
      rewrite Z.pow_add_r by lia.
      assert (2 ^ d2 <= 2 ^ s)%Z by (apply Z.pow_le_mono_r; lia).
      assert (0 < 2 ^ 52)%Z by reflexivity.
      nia. }
    split; [lia|].
    apply Qle_trans with (F2Q (2 ^ 52) e').
    + change (Z.pos 4503599627370496) with (2 ^ 52)%Z.
      rewrite !F2Q_pow2 by lia. apply bpow_le. lia.
    + apply F2Q_le_same. exact Hk.
Qed.

(** For a leverage above zero and at most [2^52], [1.0 / leverage] is at
    least [2^-52]. *)
Lemma recip_lower (l : float) :
  (0 <? l) = true -> (l <=? 4503599627370496) = true ->
  (0x1p-52 <=? 1 / l) = true.
Proof.
  intros Hl Hu.
  destruct (pos_shape l Hl) as [(m2 & e2 & El)|El].
  2:{ rewrite leb_spec, El, Prim2SF_pow52 in Hu. discriminate Hu. }
  pose proof (valid_finite _ _ _ _ El) as V.
  rewrite leb_spec, El, Prim2SF_pow52 in Hu.
  apply (SFleb_value m2 4503599627370496 e2 0 V eq_refl) in Hu.
  destruct (div_one_core_lower m2 e2 V Hu) as (q & e' & lz & Hc & Hq & Hle).
  rewrite leb_spec, Prim2SF_eps.
  destruct (Prim2SF (1 / l)) as [s|s| |s m e] eqn:Ed;
    try pose proof (valid_finite _ _ _ _ Ed) as Vd;
    rewrite div_spec, Prim2SF_one, El in Ed;
    unfold SF64div, SFdiv in Ed; rewrite Hc in Ed; cbn [xorb] in Ed;
    destruct (binary_round_aux_lower_loc false q e' lz
                4503599627370496 (-104) Hq eq_refl Hle)
      as [Hi|(m3 & e3 & H3 & Hle3)]; try congruence.
  - rewrite Hi in Ed. injection Ed as <-. reflexivity.
  - rewrite H3 in Ed. injection Ed as <- <- <-.
    apply SFleb_finite_pos; [reflexivity|exact Vd|exact Hle3].
Qed.

(** Values at one exponent subtract as the mantissas. *)
Lemma F2Q_sub (a b e : Z) : (F2Q (a - b) e == F2Q a e - F2Q b e)%Q.
Proof.
  unfold F2Q, Z.sub. rewrite inject_Z_plus, inject_Z_opp. ring.
Qed.

(** Values at one exponent add as the mantissas. *)
Lemma F2Q_add (a b e : Z) : (F2Q (a + b) e == F2Q a e + F2Q b e)%Q.
Proof. unfold F2Q. rewrite inject_Z_plus. ring. Qed.

(** The values of [2^-52], of the float below and of the float above
    [1.0]. *)
Lemma F2Q_eps :
  (F2Q (Z.pos 4503599627370496) (-104) == 1 # 4503599627370496)%Q.
Proof. reflexivity. Qed.

Lemma F2Q_below_one :
  (F2Q (Z.pos 9007199254740990) (-53) == 1 - (1 # 4503599627370496))%Q.
Proof. reflexivity. Qed.

Lemma F2Q_above_one :
  (F2Q (Z.pos 4503599627370497) (-52) == 1 + (1 # 4503599627370496))%Q.
Proof. reflexivity. Qed.

(** A float at or above [2^-52]: finite with that value at least, or
    [+inf]. *)
Lemma eps_le_shape (q : float) :
  (0x1p-52 <=? q) = true ->
  Prim2SF q = S754_infinity false \/
  exists m e, Prim2SF q = S754_finite false m e /\
              ((1 # 4503599627370496) <= F2Q (Z.pos m) e)%Q.
Proof.
  intros H. rewrite leb_spec, Prim2SF_eps in H.
  destruct (Prim2SF q) as [s|[]| |[] m e] eqn:E; try discriminate H;
    [left; reflexivity|].
  right. exists m, e. split; [reflexivity|].
  rewrite <- F2Q_eps.
  apply (SFleb_value 4503599627370496 m (-104) e eq_refl
           (valid_finite _ _ _ _ E)), H.
Qed.

(** [1 - q] for [q >= 2^-52]: negative, zero, or positive and at most
    [1 - 2^-52]. *)
Lemma one_minus_upper (q : float) :
  (0x1p-52 <=? q) = true ->
  SFsigned true (Prim2SF (1 - q)) \/
  Prim2SF (1 - q) = S754_zero false \/
  exists m e, Prim2SF (1 - q) = S754_finite false m e /\
              (F2Q (Z.pos m) e <= 1 - (1 # 4503599627370496))%Q.
Proof.
  intros Hq. rewrite sub_spec, Prim2SF_one.
  destruct (eps_le_shape q Hq) as [-> | (mq & eq & -> & Hv)];
    [left; reflexivity|].
  unfold SF64sub, SFsub, cond_Zopp.
  set (ez := Z.min (-52) eq).
  destruct (shl_align_le 4503599627370496 (-52) ez ltac:(unfold ez; lia))
    as (a & -> & Ha).
  destruct (shl_align_le mq eq ez ltac:(unfold ez; lia)) as (b & -> & Hb).
  cbn [fst].
  assert (Hva : (F2Q (Z.pos a) ez == 1)%Q).
  { rewrite Ha, F2Q_aligned by (unfold ez; lia). apply F2Q_one. }
  assert (Hvb : (F2Q (Z.pos b) ez == F2Q (Z.pos mq) eq)%Q).
  { rewrite Hb. apply F2Q_aligned. unfold ez; lia. }
  unfold binary_normalize.
  destruct (Z.pos a - Z.pos b)%Z as [|p|p] eqn:D.
  - right. left. reflexivity.
  - right.
    destruct (binary_round_spec false p ez) as (mz & ez' & -> & Hvz & Hal).
    destruct (binary_round_aux_upper false (Z.pos mz) ez'
                9007199254740990 (-53) ltac:(lia) Hal eq_refl)
      as [Hz|(m3 & e3 & H3 & Hle)].
    + rewrite Hvz, F2Q_below_one, <- D, F2Q_sub, Hva, Hvb. lra.
    + left. exact Hz.
    + right. exists m3, e3. split; [exact H3|].
      rewrite <- F2Q_below_one. exact Hle.
  - left. apply binary_round_signed.
Qed.

(** [1 + q] for [q >= 2^-52]: [+inf], or finite and at least
    [1 + 2^-52]. *)
Lemma one_plus_lower (q : float) :
  (0x1p-52 <=? q) = true ->
  Prim2SF (1 + q) = S754_infinity false \/
  exists m e, Prim2SF (1 + q) = S754_finite false m e /\
              (1 + (1 # 4503599627370496) <= F2Q (Z.pos m) e)%Q.
Proof.
  intros Hq. rewrite add_spec, Prim2SF_one.
  destruct (eps_le_shape q Hq) as [-> | (mq & eq & -> & Hv)];
    [left; reflexivity|].
  unfold SF64add, SFadd, cond_Zopp.
  set (ez := Z.min (-52) eq).
  destruct (shl_align_le 4503599627370496 (-52) ez ltac:(unfold ez; lia))
    as (a & -> & Ha).
  destruct (shl_align_le mq eq ez ltac:(unfold ez; lia)) as (b & -> & Hb).
  cbn [fst].
  assert (Hva : (F2Q (Z.pos a) ez == 1)%Q).
  { rewrite Ha, F2Q_aligned by (unfold ez; lia). apply F2Q_one. }
  assert (Hvb : (F2Q (Z.pos b) ez == F2Q (Z.pos mq) eq)%Q).
  { rewrite Hb. apply F2Q_aligned. unfold ez; lia. }
  change (Z.pos a + Z.pos b)%Z with (Z.pos (a + b)).
  unfold binary_normalize.
  destruct (binary_round_spec false (a + b) ez)
    as (mz & ez' & -> & Hvz & Hal).
  destruct (binary_round_aux_lower false (Z.pos mz) ez'
              4503599627370497 (-52) ltac:(lia) eq_refl)
    as [Hi|(m3 & e3 & H3 & Hle)].
  - rewrite Hvz, F2Q_above_one, Pos2Z.inj_add, F2Q_add, Hva, Hvb. lra.
  - left. exact Hi.
  - right. exists m3, e3. split; [exact H3|].
    rewrite <- F2Q_above_one. exact Hle.
Qed.

(** A mantissa with the exponent of its magnitude, below the overflow
    threshold, is valid. *)
Lemma bounded_intro (m : positive) (e : Z) :
  fexp64 (Zdigits2 (Z.pos m) + e) = e -> (e <= 971)%Z ->
  bounded prec emax m e = true.
Proof.
  intros C E. unfold bounded, canonical_mantissa.
  apply andb_true_intro. split; [apply Z.eqb_eq, C|apply Z.leb_le, E].
Qed.

(** A valid mantissa of at least [2^52] has exactly 53 digits. *)
Lemma normal_digits (m : positive) (e : Z) :
  bounded prec emax m e = true -> (2 ^ 52 <= Z.pos m)%Z ->
  Zdigits2 (Z.pos m) = 53%Z /\ (Z.pos m < 2 ^ 53)%Z.
Proof.
  intros V H. destruct (bounded_spec _ _ V) as [C _].
  assert (53 <= Zdigits2 (Z.pos m))%Z.
  { change 53%Z with (Zdigits2 (2 ^ 52)). apply Zdigits2_le. lia. }
  assert (D : Zdigits2 (Z.pos m) = 53%Z) by (rewrite fexp64_eq in C; lia).
  split; [exact D|].
  pose proof (Zdigits2_upper (Z.pos m) ltac:(lia)) as U.
  rewrite D in U. exact U.
Qed.

(** The float just below a normal positive number. *)
Lemma pred_representable (m : positive) (e : Z) :
  bounded prec emax m e = true -> (2 ^ 52 <= Z.pos m)%Z ->
  exists mB eB,
    bounded prec emax mB eB = true /\
    (F2Q (Z.pos mB) eB == F2Q (Z.pos m - 1) e)%Q.
Proof.
  intros V H. destruct (bounded_spec _ _ V) as [C E].
  destruct (normal_digits m e V H) as [D U]. rewrite D in C.
  destruct (Z.eq_dec (Z.pos m) (2 ^ 52)) as [Eq|Ne].
  - destruct (Z.eq_dec e (-1074)) as [Em|En].
    + exists 4503599627370495%positive, (-1074)%Z.
      split; [reflexivity|]. rewrite Eq, Em. reflexivity.
    + exists 9007199254740990%positive, (e - 1)%Z. split.
      * apply bounded_intro; [|lia].
        change (Zdigits2 (Z.pos 9007199254740990)) with 53%Z.
        rewrite fexp64_eq in *. lia.
      * rewrite Eq.
        change (Z.pos 9007199254740990) with ((2 ^ 52 - 1) * 2 ^ 1)%Z.
        rewrite F2Q_shift by lia.
        replace (e - 1 + 1)%Z with e by lia. reflexivity.
  - assert (Hp : Z.pos (Pos.pred m) = (Z.pos m - 1)%Z).
    { rewrite Pos2Z.inj_pred; lia. }
    exists (Pos.pred m), e. split; [|rewrite Hp; reflexivity].
    apply bounded_intro; [|exact E].
    rewrite Hp, (Zdigits2_unique (Z.pos m - 1) 53) by lia. exact C.
Qed.

(** The float just above a normal positive number, when there is one. *)
Lemma succ_representable (m : positive) (e : Z) :
  bounded prec emax m e = true -> (2 ^ 52 <= Z.pos m)%Z ->
  (Z.pos m + 1 < 2 ^ 53 \/ e < 971)%Z ->
  exists mB eB,
    bounded prec emax mB eB = true /\
    (F2Q (Z.pos mB) eB == F2Q (Z.pos m + 1) e)%Q.
Proof.
  intros V H Hr. destruct (bounded_spec _ _ V) as [C E].
  destruct (normal_digits m e V H) as [D U]. rewrite D in C.
  destruct (Z_lt_le_dec (Z.pos m + 1) (2 ^ 53)) as [L|G].
  - exists (m + 1)%positive, e. split; [|reflexivity].
    apply bounded_intro; [|exact E].
    rewrite Pos2Z.inj_add, (Zdigits2_unique (Z.pos m + 1) 53) by lia.
    exact C.
  - exists 4503599627370496%positive, (e + 1)%Z. split.
    + apply bounded_intro; [|lia].
      change (Zdigits2 (Z.pos 4503599627370496)) with 53%Z.
      rewrite fexp64_eq in *. lia.
    + replace (Z.pos m + 1)%Z with (2 ^ 52 * 2 ^ 1)%Z by lia.
      rewrite F2Q_shift by lia. reflexivity.
Qed.

(** A value of [2^1024] or more rounds to an infinity. *)
Lemma binary_round_aux_overflow (sx : bool) (m e : Z) :
  (0 < m)%Z -> (1024 < Zdigits2 m + e)%Z ->
  binary_round_aux prec emax sx m e loc_Exact = S754_infinity sx.
Proof.
  intros Hm Hd.
  destruct (binary_round_aux_spec sx m e ltac:(lia)) as (m2 & Hm2 & _ & ->).
  cbv zeta in *.
  pose proof (trunc_canonical m e ltac:(lia)) as Hc. cbv zeta in Hc.
  set (d := Zdigits2 m) in *.
  set (e1 := Z.max e (fexp64 (d + e))) in *.
  set (m1 := (m / 2 ^ (e1 - e))%Z) in *.
  assert (He1 : (971 < e1)%Z) by (unfold e1; rewrite fexp64_eq; lia).
  assert (Hp : (0 < 2 ^ (e1 - e))%Z).
  { apply Z.pow_pos_nonneg; unfold e1; lia. }
  assert (H1 : (0 < m1)%Z).
  { unfold m1. apply Z.div_str_pos. split; [exact Hp|].
    pose proof (Zdigits2_bounds m Hm) as [Lo _]. fold d in Lo.
    assert (2 ^ (e1 - e) <= 2 ^ (d - 1))%Z.
    { apply Z.pow_le_mono_r; [lia|].
      assert (0 < d)%Z.
      { unfold d. rewrite Zdigits2_log2 by exact Hm.
        pose proof (Z.log2_nonneg m). lia. }
      unfold e1. rewrite fexp64_eq. lia. }
    lia. }
  destruct (renormalise_exact m1 m2 e1 ltac:(lia) Hc Hm2) as [Hx He3].
  cbv zeta in Hx, He3.
  set (e3 := Z.max e1 (fexp64 (Zdigits2 m2 + e1))) in *.
  assert (Hp3 : (0 < 2 ^ (e3 - e1))%Z) by (apply Z.pow_pos_nonneg; lia).
  destruct (m2 / 2 ^ (e3 - e1))%Z as [|p|p] eqn:E3; try lia.
  replace (e3 <=? emax - prec)%Z with false; [reflexivity|].
  symmetry. apply Z.leb_gt. change (emax - prec)%Z with 971%Z. lia.
Qed.

(** Zeros, negative numbers and [-inf] are strictly below every positive
    finite number. *)
Lemma SFltb_signed_true_pos (x : spec_float) (m : positive) (e : Z) :
  SFsigned true x \/ x = S754_zero false ->
  SFltb x (S754_finite false m e) = true.
Proof.
  intros [H| ->]; [|reflexivity].
  destruct x as [s|s| |s mx ex]; simpl in H; try contradiction; subst;
    reflexivity.
Qed.

(** Multiplying a normal positive [x] by a factor that is at most
    [1 - 2^-52] gives strictly less than [x]. *)
Lemma mul_lt_self (x y : float) (mx : positive) (ex : Z) :
  Prim2SF x = S754_finite false mx ex ->
  (2 ^ 52 <= Z.pos mx)%Z ->
  (SFsigned true (Prim2SF y) \/
   Prim2SF y = S754_zero false \/
   exists m e, Prim2SF y = S754_finite false m e /\
               (F2Q (Z.pos m) e <= 1 - (1 # 4503599627370496))%Q) ->
  (x * y <? x) = true.
Proof.
  intros Hx Hn Hy. pose proof (valid_finite _ _ _ _ Hx) as Vx.
  rewrite ltb_spec, Hx.
  destruct Hy as [Hy|[Hy|(my & ey & Hy & Hle)]].
  - apply SFltb_signed_true_pos. left.
    destruct (Prim2SF y) as [s|s| |s my ey] eqn:Ey; simpl in Hy;
      try contradiction; subst s.
    + rewrite mul_spec, Hx, Ey. reflexivity.
    + rewrite mul_spec, Hx, Ey. reflexivity.
    + rewrite (mul_finite_spec x y true mx my ex ey Hx Ey).
      apply binary_round_aux_signed. lia.
  - apply SFltb_signed_true_pos. right. rewrite mul_spec, Hx, Hy. reflexivity.
  - pose proof (valid_finite _ _ _ _ Hy) as Vy.
    pose proof (mul_finite_spec x y false mx my ex ey Hx Hy) as Hz.
    destruct (pred_representable mx ex Vx Hn) as (mB & eB & VB & HB).
    assert (Hlt : (F2Q (Z.pos mB) eB < F2Q (Z.pos mx) ex)%Q).
    { rewrite HB. apply F2Q_lt_same. lia. }
    destruct (binary_round_aux_upper false (Z.pos (mx * my)) (ex + ey)
                mB eB ltac:(lia) (mul_aligned mx my ex ey Vx Vy) VB)
      as [H0|(m3 & e3 & H3 & Hle3)].
    + rewrite Pos2Z.inj_mul, F2Q_mul, HB, F2Q_sub.
      assert (Hone : (F2Q 1 ex
                      <= (1 # 4503599627370496) * F2Q (Z.pos mx) ex)%Q).
      { unfold F2Q. pose proof (bpow_pos ex) as Hb.
        assert (Hm : (inject_Z (2 ^ 52) <= inject_Z (Z.pos mx))%Q)
          by (rewrite <- Zle_Qle; exact Hn).
        change (inject_Z (2 ^ 52)) with (4503599627370496 # 1)%Q in Hm.
        change (inject_Z 1) with 1%Q.
        set (M := inject_Z (Z.pos mx)) in *. set (b := (2 ^ ex)%Q) in *.
        assert (1 <= (1 # 4503599627370496) * M)%Q by lra.
        nra. }
      pose proof (F2Q_pos (Z.pos mx) ex ltac:(lia)).
      set (vx := F2Q (Z.pos mx) ex) in *. set (vy := F2Q (Z.pos my) ey) in *.
      set (u := F2Q 1 ex) in *.
      assert (vx * vy <= vx * (1 - (1 # 4503599627370496)))%Q by nra.
      lra.
    + rewrite Hz, H0. reflexivity.
    + rewrite H3 in Hz. rewrite Hz.
      apply SFltb_value; [exact (valid_finite _ _ _ _ Hz)|exact Vx|].
      apply Qle_lt_trans with (F2Q (Z.pos mB) eB); assumption.
Qed.

(** Multiplying a normal positive [x] by a factor that is at least
    [1 + 2^-52] gives strictly more than [x], [+inf] on overflow. *)
Lemma mul_gt_self (x y : float) (mx : positive) (ex : Z) :
  Prim2SF x = S754_finite false mx ex ->
  (2 ^ 52 <= Z.pos mx)%Z ->
  (Prim2SF y = S754_infinity false \/
   exists m e, Prim2SF y = S754_finite false m e /\
               (1 + (1 # 4503599627370496) <= F2Q (Z.pos m) e)%Q) ->
  (x <? x * y) = true.
Proof.
  intros Hx Hn Hy. pose proof (valid_finite _ _ _ _ Hx) as Vx.
  destruct (bounded_spec _ _ Vx) as [_ Ex].
  destruct (normal_digits mx ex Vx Hn) as [_ Ux].
  rewrite ltb_spec, Hx.
  destruct Hy as [Hy|(my & ey & Hy & Hle)].
  { rewrite mul_spec, Hx, Hy. reflexivity. }
  pose proof (mul_finite_spec x y false mx my ex ey Hx Hy) as Hz.
  assert (Hv : (F2Q (Z.pos mx + 1) ex
                <= F2Q (Z.pos (mx * my)) (ex + ey))%Q).
  { rewrite Pos2Z.inj_mul, F2Q_mul, F2Q_add.
    assert (Hone : (F2Q 1 ex
                    <= (1 # 4503599627370496) * F2Q (Z.pos mx) ex)%Q).
    { unfold F2Q. pose proof (bpow_pos ex) as Hb.
      assert (Hm : (inject_Z (2 ^ 52) <= inject_Z (Z.pos mx))%Q)
        by (rewrite <- Zle_Qle; exact Hn).
      change (inject_Z (2 ^ 52)) with (4503599627370496 # 1)%Q in Hm.
      change (inject_Z 1) with 1%Q.
      set (M := inject_Z (Z.pos mx)) in *. set (b := (2 ^ ex)%Q) in *.
      assert (1 <= (1 # 4503599627370496) * M)%Q by lra.
      nra. }
    pose proof (F2Q_pos (Z.pos mx) ex ltac:(lia)).
    set (vx := F2Q (Z.pos mx) ex) in *. set (vy := F2Q (Z.pos my) ey) in *.
    set (u := F2Q 1 ex) in *.
    assert (vx * (1 + (1 # 4503599627370496)) <= vx * vy)%Q by nra.
    lra. }
  destruct (Z_lt_le_dec (Z.pos mx + 1) (2 ^ 53)) as [L|G];
    [|destruct (Z_lt_le_dec ex 971) as [L|G']].
  3:{ (* the largest binade: the product overflows *)
    assert (Ho : (1024 < Zdigits2 (Z.pos (mx * my)) + (ex + ey))%Z).
    { destruct (Z_lt_le_dec 1024 (Zdigits2 (Z.pos (mx * my)) + (ex + ey)))
        as [|Hc]; [assumption|exfalso].
      pose proof (Zdigits2_upper (Z.pos (mx * my)) ltac:(lia)) as Hu.
      apply (F2Q_lt_same _ _ (ex + ey)) in Hu.
      rewrite F2Q_pow2 in Hu by (simpl; lia).
      pose proof (bpow_le _ _ Hc) as Hb.
      assert (Hbig : (2 ^ 1024 <= F2Q (Z.pos mx + 1) ex)%Q).
      { replace (Z.pos mx + 1)%Z with (2 ^ 53)%Z by lia.
        replace ex with 971%Z by lia.
        rewrite F2Q_pow2 by lia. apply Qle_refl. }
      lra. }
    rewrite Hz, (binary_round_aux_overflow false (Z.pos (mx * my))
                   (ex + ey) ltac:(lia) Ho).
    reflexivity. }
  all: destruct (succ_representable mx ex Vx Hn ltac:(lia))
         as (mB & eB & VB & HB);
       assert (Hlt : (F2Q (Z.pos mx) ex < F2Q (Z.pos mB) eB)%Q)
         by (rewrite HB; apply F2Q_lt_same; lia);
       destruct (binary_round_aux_lower false (Z.pos (mx * my)) (ex + ey)
                   mB eB ltac:(lia) VB)
         as [Hi|(m3 & e3 & H3 & Hle3)];
       [ rewrite HB; exact Hv
       | rewrite Hz, Hi; reflexivity
       | rewrite H3 in Hz; rewrite Hz;
         apply SFltb_value;
           [exact Vx|exact (valid_finite _ _ _ _ Hz)|];
         apply Qlt_le_trans with (F2Q (Z.pos mB) eB); assumption ].
Qed.

(** The smallest normal float [2^-1022]. *)
Lemma Prim2SF_min_normal :
  Prim2SF 0x1p-1022 = S754_finite false 4503599627370496 (-1074).
Proof. reflexivity. Qed.

(** A float at or above the smallest normal number, when finite, has a
    full mantissa. *)
Lemma normal_shape (x : float) :
  (0x1p-1022 <=? x) = true -> is_finite x = true ->
  exists m e, Prim2SF x = S754_finite false m e /\ (2 ^ 52 <= Z.pos m)%Z.
Proof.
  intros Hn Hf. rewrite leb_spec, Prim2SF_min_normal in Hn.
  destruct (finite_shape x Hf) as [(s & E)|(s & m & e & E)];
    rewrite E in Hn; [discriminate Hn|].
  destruct s; [discriminate Hn|].
  exists m, e. split; [exact E|].
  pose proof (valid_finite _ _ _ _ E) as V.
  apply (SFleb_value 4503599627370496 m (-1074) e eq_refl V) in Hn.
  destruct (bounded_spec _ _ V) as [C _].
  apply (F2Q_le_l _ _ (-1074) e) in Hn; [|rewrite fexp64_eq in C; lia].
  destruct (Z.eq_dec e (-1074)) as [->|Ne].
  - simpl in Hn. lia.
  - assert (D : Zdigits2 (Z.pos m) = 53%Z) by (rewrite fexp64_eq in C; lia).
    pose proof (Zdigits2_bounds (Z.pos m) ltac:(lia)) as [Lo _].
    rewrite D in Lo. exact Lo.
Qed.

(** Both products of the liquidation price, strictly on their side of a
    normal entry. *)
Lemma liquidation_ordering_strict_aux (e l : float) :
  (0 <? l) = true ->
  (l <=? 4503599627370496) = true ->
  (0x1p-1022 <=? e) = true ->
  is_finite e = true ->
  (e * (1 - 1 / l) <? e) = true /\ (e <? e * (1 + 1 / l)) = true.
Proof.
  intros Hl Hu Hn Hf.
  destruct (normal_shape e Hn Hf) as (m & ex & Hm & Hfull).
  pose proof (recip_lower l Hl Hu) as Hq.
  split.
  - apply (mul_lt_self e _ m ex Hm Hfull), one_minus_upper, Hq.
  - apply (mul_gt_self e _ m ex Hm Hfull), one_plus_lower, Hq.
Qed.

(** C7, amended.  For every leverage above zero and every finite entry
    above zero both liquidation prices are returned, the one of a long
    position is at most the entry, and the entry is at most the one of a
    short position.  When moreover the leverage is at most [2^52] and the
    entry at least the smallest normal float [2^-1022], both inequalities
    are strict. *)
Theorem liquidation_ordering_amended (e l : float) :
  (0 <? l) = true -> (0 <? e) = true -> is_finite e = true ->
  exists lo hi,
    liquidation_price e l Long = Ok lo /\
    liquidation_price e l Short = Ok hi /\
    (lo <=? e) = true /\
    (e <=? hi) = true /\
    ((l <=? 4503599627370496) = true -> (0x1p-1022 <=? e) = true ->
     (lo <? e) = true /\ (e <? hi) = true).
Proof.
  intros Hl He Hf.
  pose proof (ltb_not_geb _ _ Hl) as Hg.
  assert (Hshape : exists m ex, Prim2SF e = S754_finite false m ex).
  { destruct (pos_shape e He) as [H|H]; [exact H|].
    destruct (finite_shape e Hf) as [(s & Hs)|(s & m & ex & Hs)];
      rewrite Hs in H; discriminate. }
  destruct Hshape as (m & ex & Hm).
  pose proof (recip_signed l Hl) as Hq.
  exists (e * (1 - 1 / l)), (e * (1 + 1 / l)).
  split; [apply (liquidation_price_ok e l Long Hg)|].
  split; [apply (liquidation_price_ok e l Short Hg)|].
  split; [apply (mul_le_self e _ m ex Hm), one_minus_shape, Hq|].
  split; [apply (mul_ge_self e _ m ex Hm), one_plus_shape, Hq|].
  intros Hu Hn. apply liquidation_ordering_strict_aux; assumption.
Qed.

(** The two liquidation prices 45000 and 55000 of an entry at 50000 with
    leverage 10, strictly on their side of the entry. *)
Lemma liquidation_ordering_amended_witness :
  exists lo hi,
    liquidation_price 50000 10 Long = Ok lo /\
    liquidation_price 50000 10 Short = Ok hi /\
    (lo <=? 50000) = true /\
    (50000 <=? hi) = true /\
    (lo <? 50000) = true /\ (50000 <? hi) = true.
Proof.
  destruct (liquidation_ordering_amended 50000 10 eq_refl eq_refl eq_refl)
    as (lo & hi & Hlo & Hhi & H1 & H2 & H3).
  exists lo, hi. repeat split; try assumption; apply H3; reflexivity.
Defined.

(** X14 -- strict ordering of the liquidation prices.  For a leverage
    above zero and at most [2^52], and a finite entry that is at least the
    smallest normal float [2^-1022], both liquidation prices are returned,
    that of a long position is strictly below the entry and that of a
    short position strictly above it ([+inf] when the product
    overflows). *)
Theorem liquidation_ordering_strict (e l : float) :
  (0 <? l) = true ->
  (l <=? 4503599627370496) = true ->
  (0x1p-1022 <=? e) = true ->
  is_finite e = true ->
  exists lo hi,
    liquidation_price e l Long = Ok lo /\
    liquidation_price e l Short = Ok hi /\
    (lo <? e) = true /\
    (e <? hi) = true.
Proof.
  intros Hl Hu Hn Hf.
  pose proof (ltb_not_geb _ _ Hl) as Hg.
  exists (e * (1 - 1 / l)), (e * (1 + 1 / l)).
  split; [apply (liquidation_price_ok e l Long Hg)|].
  split; [apply (liquidation_price_ok e l Short Hg)|].
  apply liquidation_ordering_strict_aux; assumption.
Qed.

(** The liquidation prices 45000 and 55000 of an entry at 50000 with
    leverage 10. *)
Lemma liquidation_ordering_strict_witness :
  exists lo hi,
    liquidation_price 50000 10 Long = Ok lo /\
    liquidation_price 50000 10 Short = Ok hi /\
    (lo <? 50000) = true /\
    (50000 <? hi) = true.
Proof.
  apply (liquidation_ordering_strict 50000 10); reflexivity.
Defined.

(** X15 -- sizing at the entry price.  For a leverage above zero and at
    most [2^52] and a finite entry that is at least [2^-1022], a live price
    equal to the entry is never at or beyond the liquidation price: the
    override does not fire, and the recommended units are the smaller cap,
    the units by risk counting only when above zero. *)
Theorem entry_price_not_overridden (inp : RiskInput) :
  (0 <? leverage inp) = true ->
  (leverage inp <=? 4503599627370496) = true ->
  (0x1p-1022 <=? entry inp) = true ->
  is_finite (entry inp) = true ->
  exists a,
    recommend_units inp (entry inp) = Ok a /\
    beyond_liquidation (side inp) (entry inp) (res_liquidation_price a)
      = false /\
    res_recommended_units a
      = if 0 <? res_units_by_risk a
        then (if res_units_by_risk a <? res_max_units_by_margin a
              then res_units_by_risk a else res_max_units_by_margin a)
        else res_max_units_by_margin a.
Proof.
  intros Hl Hu Hn Hf.
  pose proof (ltb_not_geb _ _ Hl) as Hg.
  pose proof (recommend_units_ok inp (entry inp) Hg) as Hr.
  cbv zeta in Hr.
  destruct (liquidation_ordering_strict_aux (entry inp) (leverage inp)
              Hl Hu Hn Hf) as [Hlo Hhi].
  assert (Hb : beyond_liquidation (side inp) (entry inp)
                 (if Side_eqb (side inp) Long
                  then entry inp * (1 - 1 / leverage inp)
                  else entry inp * (1 + 1 / leverage inp)) = false).
  { unfold beyond_liquidation. destruct (side inp); cbn [Side_eqb andb orb].
    - rewrite orb_false_r. apply ltb_not_geb, Hlo.
    - apply ltb_not_geb, Hhi. }
  rewrite Hb in Hr.
  eexists. split; [exact Hr|]. split; [exact Hb|]. reflexivity.
Qed.

(** Scenario B at its entry price. *)
Lemma entry_price_not_overridden_witness :
  exists a,
    recommend_units scenario_B 50000 = Ok a /\
    beyond_liquidation Long 50000 (res_liquidation_price a) = false /\
    res_recommended_units a
      = if 0 <? res_units_by_risk a
        then (if res_units_by_risk a <? res_max_units_by_margin a
              then res_units_by_risk a else res_max_units_by_margin a)
        else res_max_units_by_margin a.
Proof.
  apply (entry_price_not_overridden scenario_B); reflexivity.
Defined.

End StrictOrdering.

(** * Bounds for a leverage of at least one *)

Section DivisionUpperBound.
Local Open Scope Z_scope.

(** The end of a rounding that stays below a bound on its grid. *)
Lemma round_tail_upper (sx : bool) (m1 m2 e1 : Z) (mB : positive) (eB : Z) :
  0 <= m1 -> fexp64 (Zdigits2 m1 + e1) <= e1 -> m1 <= m2 <= m1 + 1 ->
  bounded prec emax mB eB = true -> e1 <= eB ->
  m2 <= Z.pos mB * 2 ^ (eB - e1) ->
  let e3 := Z.max e1 (fexp64 (Zdigits2 m2 + e1)) in
  let r := match m2 / 2 ^ (e3 - e1) with
           | Z0 => S754_zero sx
           | Zpos p => if e3 <=? emax - prec then S754_finite sx p e3
                       else S754_infinity sx
           | Zneg _ => S754_nan
           end in
  r = S754_zero sx \/
  exists m3 e3', r = S754_finite sx m3 e3' /\
                 (F2Q (Z.pos m3) e3' <= F2Q (Z.pos mB) eB)%Q.
Proof.
  intros H1 Hc1 Hm2 VB He1 Hm2b. cbv zeta.
  destruct (bounded_spec _ _ VB) as [CB EB].
  set (b := Z.pos mB * 2 ^ (eB - e1)) in *.
  assert (Hpb : 0 < 2 ^ (eB - e1)) by (apply Z.pow_pos_nonneg; lia).
  destruct (renormalise_exact m1 m2 e1 H1 Hc1 Hm2) as [Hx He3].
  cbv zeta in Hx, He3.
  set (e3 := Z.max e1 (fexp64 (Zdigits2 m2 + e1))) in *.
  assert (He3B : e3 <= eB).
  { assert (Zdigits2 m2 <= Zdigits2 b) by (apply Zdigits2_le; lia).
    assert (Zdigits2 b = Zdigits2 (Z.pos mB) + (eB - e1)).
    { unfold b. apply Zdigits2_mul_pow2; lia. }
    unfold e3. rewrite !fexp64_eq in *. lia. }
  assert (Hle3 : (e3 <=? emax - prec) = true).
  { apply Z.leb_le. change (emax - prec) with 971. lia. }
  rewrite Hle3.
  assert (Hp3 : 0 < 2 ^ (e3 - e1)) by (apply Z.pow_pos_nonneg; lia).
  assert (Hm3 : 0 <= m2 / 2 ^ (e3 - e1)) by (apply Z.div_pos; lia).
  destruct (m2 / 2 ^ (e3 - e1)) as [|p|p] eqn:E3; [left; reflexivity| |lia].
  right. exists p, e3. split; [reflexivity|].
  apply Qle_trans with (F2Q m2 e1).
  { rewrite <- Hx, F2Q_shift by lia.
    replace (e1 + (e3 - e1)) with e3 by lia. apply Qle_refl. }
  apply Qle_trans with (F2Q b e1).
  { apply F2Q_le_same. assumption. }
  unfold b. rewrite F2Q_shift by lia.
  replace (e1 + (eB - e1)) with eB by lia. apply Qle_refl.
Qed.

(** A remainder of zero is located exactly. *)
Lemma new_location_exact (n : Z) : new_location n 0 = loc_Exact.
Proof.
  unfold new_location, new_location_even, new_location_odd.
  destruct (Z.even n); reflexivity.
Qed.

(** A quotient has at least as many digits as the dividend has more than
    the divisor. *)
Lemma Zdigits2_div_lower (a b : Z) :
  0 < a -> 0 < b -> Zdigits2 a - Zdigits2 b <= Zdigits2 (a / b).
Proof.
  intros Ha Hb.
  pose proof (Zdigits2_bounds a Ha) as [La _].
  pose proof (Zdigits2_bounds b Hb) as [_ Ub].
  pose proof (Zdigits2_nonneg (a / b)).
  destruct (Z_le_gt_dec (Zdigits2 a - Zdigits2 b) 0) as [|G]; [lia|].
  assert (Hq : 2 ^ (Zdigits2 a - 1 - Zdigits2 b) <= a / b).
  { apply Z.div_le_lower_bound; [assumption|].
    assert (Hp : 2 ^ (Zdigits2 a - 1)
                 = 2 ^ Zdigits2 b * 2 ^ (Zdigits2 a - 1 - Zdigits2 b)).
    { rewrite <- Z.pow_add_r; [f_equal; lia| |lia].
      rewrite Zdigits2_log2 by assumption.
      pose proof (Z.log2_nonneg b). lia. }
    assert (0 <= 2 ^ (Zdigits2 a - 1 - Zdigits2 b))
      by (apply Z.pow_nonneg; lia).
    nia. }
  assert (0 < 2 ^ (Zdigits2 a - 1 - Zdigits2 b))
    by (apply Z.pow_pos_nonneg; lia).
  assert (Hpos : 0 < a / b) by lia.
  apply Z.log2_le_mono in Hq. rewrite Z.log2_pow2 in Hq by lia.
  rewrite (Zdigits2_log2 (a / b) Hpos). lia.
Qed.

(** The quotient of two valid positive numbers stays below a representable
    upper bound of the exact quotient. *)
Lemma SFdiv_upper (mx my mB : positive) (ex ey eB : Z) :
  bounded prec emax mx ex = true -> bounded prec emax my ey = true ->
  bounded prec emax mB eB = true ->
  (F2Q (Z.pos mx) ex <= F2Q (Z.pos mB) eB * F2Q (Z.pos my) ey)%Q ->
  SF64div (S754_finite false mx ex) (S754_finite false my ey)
    = S754_zero false \/
  exists m3 e3,
    SF64div (S754_finite false mx ex) (S754_finite false my ey)
      = S754_finite false m3 e3 /\
    (F2Q (Z.pos m3) e3 <= F2Q (Z.pos mB) eB)%Q.
Proof.
  intros Vx Vy VB Hle.
  destruct (bounded_spec _ _ VB) as [CB EB].
  unfold SF64div, SFdiv, SFdiv_core_binary. cbn [xorb].
  set (dx := Zdigits2 (Z.pos mx)). set (dy := Zdigits2 (Z.pos my)).
  set (e' := Z.min (fexp64 (dx + ex - (dy + ey))) (ex - ey)).
  set (s := ex - ey - e').
  assert (Hs : 0 <= s) by (unfold s, e'; lia).
  set (m' := match s with
             | 0 => Z.pos mx
             | Z.pos _ => Z.shiftl (Z.pos mx) s
             | Z.neg _ => 0
             end).
  assert (Hm' : m' = Z.pos mx * 2 ^ s).
  { unfold m'. destruct s as [|p|p]; [simpl; lia| |lia].
    apply Z.shiftl_mul_pow2. lia. }
  assert (He' : e' = Z.min (Z.max (dx + ex - (dy + ey) - 53) (-1074))
                          (ex - ey)) by reflexivity.
  assert (Hsd : s = ex - ey - e') by reflexivity.
  clearbody m' s e'.
  assert (Hps : 0 < 2 ^ s) by (apply Z.pow_pos_nonneg; lia).
  assert (Hm'pos : 0 < m') by (rewrite Hm'; nia).
  pose proof (Z_div_mod m' (Z.pos my) ltac:(lia)) as Hdm.
  destruct (Z.div_eucl m' (Z.pos my)) as [q r].
  destruct Hdm as [Hdm Hr].
  assert (Hq : q = m' / Z.pos my).
  { apply (Z.div_unique _ _ _ r); [lia|exact Hdm]. }
  assert (Hq0 : 0 <= q) by (rewrite Hq; apply Z.div_pos; lia).
  set (dq := Zdigits2 q).
  assert (Hdq : dx + s - dy <= dq).
  { unfold dq. rewrite Hq.
    pose proof (Zdigits2_div_lower m' (Z.pos my) Hm'pos ltac:(lia)) as H.
    rewrite Hm' in H at 1. rewrite Zdigits2_mul_pow2 in H by lia.
    exact H. }
  assert (Hal : e' <= fexp64 (dq + e')).
  { rewrite fexp64_eq. lia. }
  (* values *)
  assert (Hvx : (F2Q m' (e' + ey) == F2Q (Z.pos mx) ex)%Q).
  { rewrite Hm', F2Q_shift by lia.
    replace (e' + ey + s) with ex by lia. reflexivity. }
  pose proof (F2Q_pos (Z.pos my) ey ltac:(lia)) as Hypos.
  assert (HTQ : (F2Q q e' <= F2Q (Z.pos mB) eB)%Q).
  { assert (H : (F2Q q e' * F2Q (Z.pos my) ey <= F2Q m' (e' + ey))%Q).
    { rewrite <- F2Q_mul. apply F2Q_le_same. lia. }
    rewrite Hvx in H.
    apply (Qmult_le_r _ _ (F2Q (Z.pos my) ey) Hypos).
    apply (Qle_trans _ _ _ H Hle). }
  pose proof (trunc_canonical q e' Hq0) as Hc1. cbv zeta in Hc1.
  fold dq in Hc1.
  replace (Z.max e' (fexp64 (dq + e'))) with (fexp64 (dq + e')) in Hc1
    by lia.
  set (e1 := fexp64 (dq + e')) in *.
  set (m1 := q / 2 ^ (e1 - e')) in *.
  assert (Hp : 0 < 2 ^ (e1 - e')) by (apply Z.pow_pos_nonneg; lia).
  assert (H1 : 0 <= m1) by (apply Z.div_pos; lia).
  assert (He1 : e1 <= eB).
  { destruct (Z.eq_dec q 0) as [Z0|NZ].
    - unfold e1, dq in *. rewrite Z0 in *. simpl Zdigits2 in *.
      rewrite !fexp64_eq in *. lia.
    - destruct (Z_le_gt_dec e1 eB) as [|G]; [assumption|exfalso].
      apply (Qlt_not_le _ _ (F2Q_lt_digits q e' (Z.pos mB) eB
        ltac:(lia) ltac:(lia)
        ltac:(fold dq; unfold e1 in *; rewrite !fexp64_eq in *; lia))).
      exact HTQ. }
  set (b := Z.pos mB * 2 ^ (eB - e1)).
  assert (Hpb : 0 < 2 ^ (eB - e1)) by (apply Z.pow_pos_nonneg; lia).
  assert (Hmb : m' <= b * 2 ^ (e1 - e') * Z.pos my).
  { apply (F2Q_le_same _ _ (e' + ey)).
    rewrite Hvx, F2Q_mul. unfold b.
    rewrite (F2Q_shift (Z.pos mB * 2 ^ (eB - e1)) e' (e1 - e')) by lia.
    rewrite (F2Q_shift (Z.pos mB) (e' + (e1 - e')) (eB - e1)) by lia.
    replace (e' + (e1 - e') + (eB - e1)) with eB by lia. exact Hle. }
  assert (Hqb : q <= b * 2 ^ (e1 - e')) by nia.
  assert (Hm1b : m1 <= b).
  { unfold m1. apply Z.div_le_upper_bound; [assumption|]. lia. }
  destruct (Z.eq_dec m1 b) as [E|NE].
  - (* the quotient is the bound itself: nothing is lost *)
    pose proof (Z.mul_div_le q (2 ^ (e1 - e')) Hp) as Hfl. fold m1 in Hfl.
    assert (Hqeq : q = b * 2 ^ (e1 - e')) by nia.
    assert (Hr0 : r = 0) by nia.
    rewrite Hr0, new_location_exact.
    destruct (binary_round_aux_spec false q e' Hq0)
      as (m2 & Hm2 & Hex & ->).
    cbv zeta in Hm2, Hex |- *. fold dq in Hm2, Hex |- *.
    replace (Z.max e' (fexp64 (dq + e'))) with e1 in * by (unfold e1; lia).
    fold m1 in Hm2, Hex.
    assert (Hmod : q mod 2 ^ (e1 - e') = 0).
    { rewrite Hqeq. apply Z.mod_mul. lia. }
    apply (round_tail_upper false m1 m2 e1 mB eB H1 Hc1 Hm2 VB He1).
    fold b. rewrite (Hex Hmod). lia.
  - destruct (binary_round_aux_spec_loc false q e'
                (new_location (Z.pos my) r) Hq0) as (m2 & Hm2 & ->).
    cbv zeta in Hm2 |- *. fold dq in Hm2 |- *.
    replace (Z.max e' (fexp64 (dq + e'))) with e1 in * by (unfold e1; lia).
    fold m1 in Hm2.
    apply (round_tail_upper false m1 m2 e1 mB eB H1 Hc1 Hm2 VB He1).
    fold b. lia.
Qed.

End DivisionUpperBound.

Section LeverageAtLeastOne.
Local Open Scope Z_scope.
Local Open Scope float_scope.

(** A float at or above [1.0]: finite with a value of at least one, or
    [+inf]. *)
Lemma one_le_shape (l : float) :
  (1 <=? l) = true ->
  Prim2SF l = S754_infinity false \/
  exists m e, Prim2SF l = S754_finite false m e /\
              (1 <= F2Q (Z.pos m) e)%Q.
Proof.
  intros H. rewrite leb_spec, Prim2SF_one in H.
  destruct (Prim2SF l) as [s|[]| |[] m e] eqn:E; try discriminate H;
    [left; reflexivity|].
  right. exists m, e. split; [reflexivity|].
  rewrite <- F2Q_one.
  apply (SFleb_value 4503599627370496 m (-52) e eq_refl
           (valid_finite _ _ _ _ E)), H.
Qed.

Lemma one_le_pos (l : float) : (1 <=? l) = true -> (0 <? l) = true.
Proof.
  intros H. rewrite ltb_spec, Prim2SF_zero.
  destruct (one_le_shape l H) as [-> | (m & e & -> & _)]; reflexivity.
Qed.

(** A float that is not NaN and has a clear sign bit is at or above
    zero. *)
Lemma signed_false_nonneg (x : float) :
  SFsigned false (Prim2SF x) -> (0 <=? x) = true.
Proof.
  rewrite leb_spec, Prim2SF_zero. unfold SFleb, SFcompare.
  destruct (Prim2SF x) as [s|s| |s m e]; simpl; intros H;
    try contradiction; subst; reflexivity.
Qed.

(** Dividing a positive finite [x] by a float that is at least [1.0]
    gives a float between zero and [x]. *)
Lemma div_le_self (x l : float) (mx : positive) (ex : Z) :
  Prim2SF x = S754_finite false mx ex -> (1 <=? l) = true ->
  (0 <=? x / l) = true /\ (x / l <=? x) = true.
Proof.
  intros Hx Hl. pose proof (valid_finite _ _ _ _ Hx) as Vx.
  destruct (one_le_shape l Hl) as [El | (ml & el & El & Hv)].
  { rewrite !leb_spec, div_spec, Hx, El, Prim2SF_zero. split; reflexivity. }
  pose proof (valid_finite _ _ _ _ El) as Vl.
  assert (Hd : Prim2SF (x / l)
               = SF64div (S754_finite false mx ex) (S754_finite false ml el))
    by (rewrite div_spec, Hx, El; reflexivity).
  destruct (SFdiv_upper mx ml mx ex el ex Vx Vl Vx) as [H0|(m3 & e3 & H3 & Hle)].
  - pose proof (F2Q_pos (Z.pos mx) ex ltac:(lia)). nra.
  - rewrite H0 in Hd. rewrite !leb_spec, Hd, Hx, Prim2SF_zero.
    split; reflexivity.
  - rewrite H3 in Hd. rewrite !leb_spec, Hd, Hx, Prim2SF_zero.
    split; [reflexivity|].
    apply SFleb_finite_pos; [exact (valid_finite _ _ _ _ Hd)|exact Vx|].
    exact Hle.
Qed.

(** [1.0 / l] for [l >= 1]: [+0.0], or positive and at most one. *)
Lemma recip_le_one (l : float) :
  (1 <=? l) = true ->
  Prim2SF (1 / l) = S754_zero false \/
  exists m e, Prim2SF (1 / l) = S754_finite false m e /\
              (F2Q (Z.pos m) e <= 1)%Q.
Proof.
  intros Hl.
  destruct (one_le_shape l Hl) as [El | (ml & el & El & Hv)].
  { left. rewrite div_spec, Prim2SF_one, El. reflexivity. }
  pose proof (valid_finite _ _ _ _ El) as Vl.
  rewrite div_spec, Prim2SF_one, El.
  destruct (SFdiv_upper 4503599627370496 ml 4503599627370496 (-52) el (-52)
              eq_refl Vl eq_refl) as [H0|(m3 & e3 & H3 & Hle)].
  - rewrite F2Q_one. lra.
  - left. exact H0.
  - right. exists m3, e3. split; [exact H3|].
    rewrite <- F2Q_one. exact Hle.
Qed.

(** [1 - q] for [0 <= q <= 1] is not negative. *)
Lemma one_minus_nonneg (q : float) :
  (Prim2SF q = S754_zero false \/
   exists m e, Prim2SF q = S754_finite false m e /\
               (F2Q (Z.pos m) e <= 1)%Q) ->
  SFsigned false (Prim2SF (1 - q)).
Proof.
  intros Hq. rewrite sub_spec, Prim2SF_one.
  destruct Hq as [-> | (mq & eq & Eq & Hv)]; [reflexivity|].
  pose proof (valid_finite _ _ _ _ Eq) as Vq. rewrite Eq.
  unfold SF64sub, SFsub, cond_Zopp.
  set (ez := Z.min (-52) eq).
  destruct (shl_align_le 4503599627370496 (-52) ez ltac:(unfold ez; lia))
    as (a & -> & Ha).
  destruct (shl_align_le mq eq ez ltac:(unfold ez; lia)) as (b & -> & Hb).
  cbn [fst].
  assert (Hab : (Z.pos b <= Z.pos a)%Z).
  { apply (F2Q_le_same _ _ ez).
    rewrite Ha, Hb, !F2Q_aligned by (unfold ez; lia).
    rewrite F2Q_one. exact Hv. }
  unfold binary_normalize.
  destruct (Z.pos a - Z.pos b)%Z as [|p|p] eqn:D; [reflexivity| |lia].
  apply binary_round_signed.
Qed.

(** A positive finite float times a float with a clear sign bit. *)
Lemma mul_signed_false (x y : float) (mx : positive) (ex : Z) :
  Prim2SF x = S754_finite false mx ex ->
  SFsigned false (Prim2SF y) -> SFsigned false (Prim2SF (x * y)).
Proof.
  intros Hx Hy. rewrite mul_spec, Hx.
  destruct (Prim2SF y) as [s|s| |s my ey]; simpl in Hy; try contradiction;
    subst s; try reflexivity.
  apply (binary_round_aux_signed false). lia.
Qed.

(** X16 -- With a leverage of at least one and a finite entry above
    zero, the margin of one unit and the liquidation price of a long
    position are both returned and both lie between zero and the
    entry. *)
Theorem leverage_at_least_one_bounds (e l : float) :
  (1 <=? l) = true -> (0 <? e) = true -> is_finite e = true ->
  exists lo mpu,
    liquidation_price e l Long = Ok lo /\
    margin_per_unit e l = Ok mpu /\
    (0 <=? lo) = true /\ (lo <=? e) = true /\
    (0 <=? mpu) = true /\ (mpu <=? e) = true.
Proof.
  intros Hl He Hf.
  pose proof (one_le_pos l Hl) as Hp.
  pose proof (ltb_not_geb _ _ Hp) as Hg.
  assert (Hshape : exists m ex, Prim2SF e = S754_finite false m ex).
  { destruct (pos_shape e He) as [H|H]; [exact H|].
    destruct (finite_shape e Hf) as [(s & Hs)|(s & m & ex & Hs)];
      rewrite Hs in H; discriminate. }
  destruct Hshape as (m & ex & Hm).
  exists (e * (1 - 1 / l)), (e / l).
  split; [apply (liquidation_price_ok e l Long Hg)|].
  split; [apply (margin_per_unit_ok e l Hg)|].
  split; [|split].
  - apply signed_false_nonneg, (mul_signed_false e _ m ex Hm).
    apply one_minus_nonneg, recip_le_one, Hl.
  - apply (mul_le_self e _ m ex Hm), one_minus_shape, recip_signed, Hp.
  - apply (div_le_self e l m ex Hm Hl).
Qed.

(** An entry at 50000 with leverage 10. *)
Lemma leverage_at_least_one_bounds_witness :
  exists lo mpu,
    liquidation_price 50000 10 Long = Ok lo /\
    margin_per_unit 50000 10 = Ok mpu /\
    (0 <=? lo) = true /\ (lo <=? 50000) = true /\
    (0 <=? mpu) = true /\ (mpu <=? 50000) = true.
Proof.
  apply (leverage_at_least_one_bounds 50000 10); reflexivity.
Defined.

End LeverageAtLeastOne.
